(** * Knowledge graph and ranked search of the Obsidian management server

    A shallow embedding of [generate_graph] and [search_notes] of
    [src/multimedia/obsidian_server.py], with the properties of the graph
    builder, the scoped traversal and the ranked search, and of [ai_assist]
    and [get_vault_stats] of the same file.

    Conventions of the embedding.
    - A Python [str] is a [string] whose characters are code points below 256.
    - A Python [dict] is an association list in insertion order: assigning to
      an existing key keeps its position, a new key goes to the end.
    - The vault on disk is the sequence of [(root, files)] pairs that
      [os.walk] yields; each file carries what [open]/[read] and
      [frontmatter.loads] make of it ([None] when either raises).  The [tags]
      entry of the metadata is absent or a list of strings.
    - The fixed pattern of [generate_graph] is written out as a matcher
      ([findall_links]); the [re] calls of [search_notes], whose patterns
      come from the request, are a parameter of the search
      ([regex_engine]), with one instance to run examples on.
    - The interpreter's recursion limit is not modelled.

    The definitions come first, in the order of the source; the facts
    follow: the depth filter, the graph builder, the traversal, the
    search, then further facts on each and on [ai_assist] and
    [get_vault_stats]. *)

From Stdlib Require Import String Ascii List ZArith Lia Bool Arith.
From Stdlib Require Import Sorting.Sorted Sorting.Permutation.
Import ListNotations.
Local Open Scope string_scope.
Local Open Scope list_scope.

(** ** Python string operations used by the server *)

Module PyStr.

(** [needle in hay] *)
Fixpoint contains (needle hay : string) : bool :=
  String.prefix needle hay
  || match hay with
     | EmptyString => false
     | String _ rest => contains needle rest
     end.

(** [s.endswith(suffix)] *)
Definition endswith (s suffix : string) : bool :=
  (String.length suffix <=? String.length s)%nat
  && String.eqb
       (substring (String.length s - String.length suffix)
                  (String.length suffix) s)
       suffix.

(** [c.lower()] on a code point below 256: [A-Z] and the Latin-1 capitals
    [0xC0-0xDE] (the multiplication sign [0xD7] apart) move up by 32. *)
Definition lower_char (c : ascii) : ascii :=
  let n := nat_of_ascii c in
  if ((65 <=? n) && (n <=? 90))%nat
     || ((192 <=? n) && (n <=? 222) && negb (n =? 215))%nat
  then ascii_of_nat (n + 32)
  else c.

(** [s.lower()] *)
Fixpoint lower (s : string) : string :=
  match s with
  | EmptyString => EmptyString
  | String c rest => String (lower_char c) (lower rest)
  end.

(** [c.isspace()] on a code point below 256. *)
Definition isspace (c : ascii) : bool :=
  let n := nat_of_ascii c in
  ((9 <=? n) && (n <=? 13) || (28 <=? n) && (n <=? 32)
   || (n =? 133) || (n =? 160))%nat.

Fixpoint lstrip (s : string) : string :=
  match s with
  | EmptyString => EmptyString
  | String c rest => if isspace c then lstrip rest else s
  end.

Fixpoint rstrip (s : string) : string :=
  match s with
  | EmptyString => EmptyString
  | String c rest =>
      match rstrip rest with
      | EmptyString => if isspace c then EmptyString else String c EmptyString
      | kept => String c kept
      end
  end.

(** [s.strip()] *)
Definition strip (s : string) : string := rstrip (lstrip s).

(** [s.split(sep)[0]]: the text before the first separator, the whole
    string when there is none. *)
Fixpoint split_head (sep : ascii) (s : string) : string :=
  match s with
  | EmptyString => EmptyString
  | String c rest =>
      if Ascii.eqb c sep then EmptyString else String c (split_head sep rest)
  end.

(** [s[:n]] for [n >= 0] *)
Definition take (n : nat) (s : string) : string := substring 0 n s.

End PyStr.

(** [Path(root) / file], as text, and [Path.stem] of a file name: the name
    without its last suffix; a name whose only dot is the leading one has
    no suffix. *)
Definition path_join (root file : string) : string := root ++ "/" ++ file.

Fixpoint rfind_dot (s : string) : option nat :=
  match s with
  | EmptyString => None
  | String c rest =>
      match rfind_dot rest with
      | Some i => Some (S i)
      | None => if Ascii.eqb c "."%char then Some 0%nat else None
      end
  end.

Definition stem (name : string) : string :=
  match rfind_dot name with
  | Some i =>
      if ((0 <? i) && (i <? String.length name - 1))%nat
      then PyStr.take i name
      else name
  | None => name
  end.

(** ** Dictionaries in insertion order *)

Section Dict.

Context {V : Type}.

Definition dict : Type := list (string * V).

(** [d.get(k)] *)
Fixpoint dict_get (k : string) (d : dict) : option V :=
  match d with
  | [] => None
  | (k', v) :: rest => if String.eqb k k' then Some v else dict_get k rest
  end.

(** [k in d] *)
Definition dict_mem (k : string) (d : dict) : bool :=
  match dict_get k d with
  | Some _ => true
  | None => false
  end.

(** [d[k] = v] *)
Fixpoint dict_set (k : string) (v : V) (d : dict) : dict :=
  match d with
  | [] => [(k, v)]
  | (k', v') :: rest =>
      if String.eqb k k' then (k, v) :: rest
      else (k', v') :: dict_set k v rest
  end.

Definition dict_keys (d : dict) : list string := map fst d.

(** [list(d.values())] *)
Definition dict_values (d : dict) : list V := map snd d.

End Dict.

Arguments dict V : clear implicits.

(** ** The vault as the server reads it *)

(** What [f.read()] and [frontmatter.loads] give for one file: the raw text
    and the two metadata entries the server looks at. *)
Record note_source : Type := {
  content : string;
  meta_tags : list string;
  meta_modified : string
}.

(** A file name with its load result; [None] when reading or parsing raises. *)
Record vault_file : Type := {
  file_name : string;
  loaded : option note_source
}.

(** The [(root, files)] pairs of [os.walk(OBSIDIAN_VAULT_PATH)], in order. *)
Definition walk : Type := list (string * list vault_file).

(** [ensure_vault_exists] either raises or leaves a tree to walk. *)
Inductive vault : Type :=
| VaultError (detail : string)
| VaultTree (w : walk).

(** An endpoint returns its record or raises [HTTPException]. *)
Inductive outcome (A : Type) : Type :=
| Response (a : A)
| HTTPException (status_code : Z) (detail : string).

Arguments Response {A} a.
Arguments HTTPException {A} status_code detail.

Definition EXCLUDED_VAULT : string :=
  "/Users/jongosussmango/Library/Mobile Documents/iCloud~md~obsidian/Documents/ObsidianTTRPGVault Experimental".

Definition is_excluded_path (path : string) : bool :=
  PyStr.contains EXCLUDED_VAULT path.

(** ** Wiki links: [re.findall(r'\[\[(.*?)\]\]', content)] *)

Definition newline : ascii := ascii_of_nat 10.

(** The lazy group and the closing brackets, on the text that follows an
    opening [[[]: the shortest run of characters other than the newline
    that is followed by []]]; [None] when a newline or the end of the text
    comes first. *)
Fixpoint lazy_group (s : string) : option string :=
  match s with
  | String "]" (String "]" _) => Some EmptyString
  | String c rest =>
      if Ascii.eqb c newline then None
      else option_map (String c) (lazy_group rest)
  | EmptyString => None
  end.

(** The pattern anchored at the start of [s]; the result is group 1. *)
Definition match_link (s : string) : option string :=
  match s with
  | String "[" (String "[" body) => lazy_group body
  | _ => None
  end.

(** Left to right, non-overlapping: where the pattern matches, its group is
    kept and the scan resumes behind the match ([skip] counts the characters
    of the match still to pass); elsewhere it moves on by one character. *)
Fixpoint findall_links_from (skip : nat) (s : string) : list string :=
  match s with
  | EmptyString => []
  | String _ rest =>
      match skip with
      | S k => findall_links_from k rest
      | O =>
          match match_link s with
          | Some group =>
              group :: findall_links_from (String.length group + 3) rest
          | None => findall_links_from 0 rest
          end
      end
  end.

Definition findall_links (content : string) : list string :=
  findall_links_from 0 content.

(** ** The graph: nodes and edges *)

(** A node record: a note ([type] ['note']) or a tag ([type] ['tag']). *)
Inductive node_record : Type :=
| NoteNode (id label path : string) (tags : list string) (size : nat)
| TagNode (id label : string) (size : nat).

Definition node_id (n : node_record) : string :=
  match n with
  | NoteNode id _ _ _ _ => id
  | TagNode id _ _ => id
  end.

Definition is_note (n : node_record) : bool :=
  match n with NoteNode _ _ _ _ _ => true | TagNode _ _ _ => false end.

Definition is_tag (n : node_record) : bool := negb (is_note n).

Inductive edge_type : Type := link | tag.

Record edge : Type := {
  source : string;
  target : string;
  type : edge_type
}.

Definition edge_type_eqb (a b : edge_type) : bool :=
  match a, b with
  | link, link | tag, tag => true
  | _, _ => false
  end.

Definition edge_eq_dec (a b : edge) : {a = b} + {a <> b}.
Proof. repeat decide equality. Defined.

Record graph : Type := {
  nodes : dict node_record;
  edges : list edge
}.

Record GraphRequest : Type := {
  depth : Z;
  node : option string;
  include_tags : bool;
  include_attachments : bool
}.

Record graph_stats : Type := {
  total_notes : nat;
  total_tags : nat;
  total_links : nat
}.

Record graph_response : Type := {
  resp_nodes : list node_record;
  resp_edges : list edge;
  resp_stats : graph_stats
}.

(** ** [generate_graph]: building the graph *)

(** One edge per wiki link of the text, to the link's text before the first
    [|], stripped. *)
Definition clean_link (l : string) : string :=
  PyStr.strip (PyStr.split_head "|" l).

Definition link_edges (note_name text : string) : list edge :=
  map (fun l => {| source := note_name; target := clean_link l; type := link |})
      (findall_links text).

(** One round of the loop over the tags of a note. *)
Definition add_tag (note_name : string) (g : graph) (t : string) : graph :=
  {| nodes := if dict_mem t (nodes g) then nodes g
              else dict_set t (TagNode t ("#" ++ t) 1) (nodes g);
     edges := edges g ++ [{| source := note_name; target := t; type := tag |}] |}.

(** One round of the loop over the files of a directory. *)
Definition add_file (with_tags : bool) (root : string) (g : graph)
    (f : vault_file) : graph :=
  if PyStr.endswith (file_name f) ".md" then
    match loaded f with
    | None => g
    | Some src =>
        let note_name := stem (file_name f) in
        let g1 :=
          {| nodes := dict_set note_name
                        (NoteNode note_name note_name
                                  (path_join root (file_name f))
                                  (meta_tags src)
                                  (String.length (content src)))
                        (nodes g);
             edges := edges g ++ link_edges note_name (content src) |} in
        if with_tags then fold_left (add_tag note_name) (meta_tags src) g1
        else g1
    end
  else g.

(** One round of the loop over [os.walk]. *)
Definition add_dir (with_tags : bool) (g : graph)
    (d : string * list vault_file) : graph :=
  if is_excluded_path (fst d) then g
  else fold_left (add_file with_tags (fst d)) (snd d) g.

Definition empty_graph : graph := {| nodes := []; edges := [] |}.

Definition build_graph (with_tags : bool) (w : walk) : graph :=
  fold_left (add_dir with_tags) w empty_graph.

(** ** [generate_graph]: the scoped traversal *)

(** The two accumulators that [traverse] mutates. *)
Record selection : Type := {
  filtered_nodes : dict node_record;
  filtered_edges : list edge
}.

Definition keep_node (k : string) (v : node_record) (st : selection) : selection :=
  {| filtered_nodes := dict_set k v (filtered_nodes st);
     filtered_edges := filtered_edges st |}.

Definition keep_edge (e : edge) (st : selection) : selection :=
  {| filtered_nodes := filtered_nodes st;
     filtered_edges := filtered_edges st ++ [e] |}.

Section Traverse.

Variable all_nodes : dict node_record.
Variable all_edges : list edge.

(** One round of [for edge in edges] in the call for [n]; [recur] is the
    recursive call at [depth - 1]. *)
Definition visit_edge (recur : string -> selection -> selection)
    (n : string) (st : selection) (e : edge) : selection :=
  if String.eqb (source e) n && negb (dict_mem (target e) (filtered_nodes st))
  then recur (target e) (keep_edge e st)
  else if String.eqb (target e) n
          && negb (dict_mem (source e) (filtered_nodes st))
  then recur (source e) (keep_edge e st)
  else st.

(** [traverse(node, depth)] for a depth given as the number of levels
    left: none when [depth <= 0]. *)
Fixpoint traverse_levels (levels : nat) (n : string) (st : selection)
    : selection :=
  match levels with
  | O => st
  | S below =>
      match dict_get n all_nodes with
      | None => st
      | Some record =>
          fold_left (visit_edge (traverse_levels below) n) all_edges
                    (keep_node n record st)
      end
  end.

(** [traverse(node, depth)] *)
Definition traverse (n : string) (depth : Z) (st : selection) : selection :=
  traverse_levels (Z.to_nat depth) n st.

End Traverse.

Definition empty_selection : selection :=
  {| filtered_nodes := []; filtered_edges := [] |}.

(** [request.node and request.node in nodes] *)
Definition scoped (request : GraphRequest) (g : graph) : option string :=
  match node request with
  | Some n => if negb (String.eqb n "") && dict_mem n (nodes g) then Some n
              else None
  | None => None
  end.

(** The graph after the depth filter. *)
Definition filter_graph (request : GraphRequest) (g : graph) : graph :=
  match scoped request g with
  | Some n =>
      let st := traverse (nodes g) (edges g) n (depth request) empty_selection in
      {| nodes := filtered_nodes st; edges := filtered_edges st |}
  | None => g
  end.

Definition count_nodes (p : node_record -> bool) (d : dict node_record) : nat :=
  List.length (filter p (dict_values d)).

Definition respond (g : graph) : graph_response :=
  {| resp_nodes := dict_values (nodes g);
     resp_edges := edges g;
     resp_stats := {| total_notes := count_nodes is_note (nodes g);
                      total_tags := count_nodes is_tag (nodes g);
                      total_links := List.length (edges g) |} |}.

Definition generate_graph (request : GraphRequest) (v : vault)
    : outcome graph_response :=
  match v with
  | VaultError detail => HTTPException 500 detail
  | VaultTree w =>
      Response (respond (filter_graph request (build_graph (include_tags request) w)))
  end.

(** ** The notes a scan reaches

    The files that the loops of [generate_graph] and [search_notes] get to
    work on, in scan order, each with its load result: the [.md] files of
    the directories outside the excluded vault that are read and parsed
    without an exception. *)
Definition scanned_in (files : list vault_file) : list (string * note_source) :=
  flat_map (fun f =>
              if PyStr.endswith (file_name f) ".md" then
                match loaded f with
                | Some src => [(file_name f, src)]
                | None => []
                end
              else [])
           files.

Definition scanned_files (w : walk) : list (string * note_source) :=
  flat_map (fun d => if is_excluded_path (fst d) then [] else scanned_in (snd d))
           w.

Definition is_link (e : edge) : bool := edge_type_eqb (type e) link.

(** An edge between [n] and another identifier. *)
Definition joins_other (n : string) (e : edge) : bool :=
  String.eqb (source e) n && negb (String.eqb (target e) n)
  || String.eqb (target e) n && negb (String.eqb (source e) n).

(** ** Python's [re], as far as [search_notes] calls it

    The regular-expression engine is the standard library's, not the
    server's.  [search_notes] is parameterised by the two calls it makes:
    - [re_search pattern text]: whether [re.search(pattern, text)] finds a
      match;
    - [re_findall_count pattern text]:
      [len(re.findall(pattern, text, re.IGNORECASE))].
    Either is [None] when compiling the pattern raises [re.error]. *)
Record regex_engine : Type := {
  re_search : string -> string -> option bool;
  re_findall_count : string -> string -> option nat
}.

(** ** [search_notes] *)

Record SearchRequest : Type := {
  query : string;
  folder : option string;
  tags : option (list string);
  limit : Z;
  search_type : string
}.

Record search_result : Type := {
  path : string;
  title : string;
  preview : string;
  result_tags : list string;
  modified : string;
  matches : nat
}.

Record search_response : Type := {
  resp_query : string;
  count : nat;
  results : list search_result
}.

(** [request.tags or [request.query]] *)
Definition wanted_tags (request : SearchRequest) : list string :=
  match tags request with
  | Some (t :: more) => t :: more
  | _ => [query request]
  end.

(** [rf'\[\[{request.query}.*?\]\]'] *)
Definition backlink_pattern (q : string) : string :=
  "\[\[" ++ q ++ ".*?\]\]".

(** The [if]/[elif] chain that sets [match]; [None] when it raises. *)
Definition mode_matches (re : regex_engine) (request : SearchRequest)
    (file : string) (src : note_source) : option bool :=
  if String.eqb (search_type request) "content" then
    Some (PyStr.contains (PyStr.lower (query request))
                         (PyStr.lower (content src)))
  else if String.eqb (search_type request) "title" then
    Some (PyStr.contains (PyStr.lower (query request)) (PyStr.lower file))
  else if String.eqb (search_type request) "tags" then
    Some (existsb (fun t => existsb (String.eqb t) (meta_tags src))
                  (wanted_tags request))
  else if String.eqb (search_type request) "backlinks" then
    re_search re (backlink_pattern (query request)) (content src)
  else Some false.

(** [content[:200] + '...' if len(content) > 200 else content] *)
Definition preview_of (text : string) : string :=
  if (200 <? String.length text)%nat then PyStr.take 200 text ++ "..."
  else text.

Definition result_of (root file : string) (src : note_source) (n : nat)
    : search_result :=
  {| path := path_join root file;
     title := stem file;
     preview := preview_of (content src);
     result_tags := meta_tags src;
     modified := meta_modified src;
     matches := n |}.

(** One round of the loop over the files of a directory: the result is
    appended when the note matches and counting raises nothing. *)
Definition search_file (re : regex_engine) (request : SearchRequest)
    (root : string) (acc : list search_result) (f : vault_file)
    : list search_result :=
  if PyStr.endswith (file_name f) ".md" then
    match loaded f with
    | None => acc
    | Some src =>
        match mode_matches re request (file_name f) src with
        | Some true =>
            match re_findall_count re (query request) (content src) with
            | Some n => acc ++ [result_of root (file_name f) src n]
            | None => acc
            end
        | _ => acc
        end
    end
  else acc.

(** [request.folder and request.folder not in root] *)
Definition outside_folder (request : SearchRequest) (root : string) : bool :=
  match folder request with
  | Some f => negb (String.eqb f "") && negb (PyStr.contains f root)
  | None => false
  end.

(** One round of the loop over [os.walk]. *)
Definition search_dir (re : regex_engine) (request : SearchRequest)
    (acc : list search_result) (d : string * list vault_file)
    : list search_result :=
  if is_excluded_path (fst d) then acc
  else if outside_folder request (fst d) then acc
  else fold_left (search_file re request (fst d)) (snd d) acc.

(** [results] when the scan is over, in scan order. *)
Definition scan_results (re : regex_engine) (request : SearchRequest)
    (w : walk) : list search_result :=
  fold_left (search_dir re request) w [].

(** [results.sort(key=lambda x: x['matches'], reverse=True)].  The sort of
    Python lists is stable, also in reverse, which fixes its result; it is
    written here as an insertion sort that puts a result before the first
    one with no more matches than its own. *)
Fixpoint insert_result (x : search_result) (sorted : list search_result)
    : list search_result :=
  match sorted with
  | [] => [x]
  | y :: rest =>
      if (matches y <=? matches x)%nat then x :: y :: rest
      else y :: insert_result x rest
  end.

Definition sort_by_matches (l : list search_result) : list search_result :=
  fold_right insert_result [] l.

(** [l[:stop]]: a negative [stop] counts from the end. *)
Definition slice_to {A : Type} (stop : Z) (l : list A) : list A :=
  if (0 <=? stop)%Z then firstn (Z.to_nat stop) l
  else firstn (List.length l - Z.to_nat (- stop)) l.

Definition search_notes (re : regex_engine) (request : SearchRequest)
    (v : vault) : outcome search_response :=
  match v with
  | VaultError detail => HTTPException 500 detail
  | VaultTree w =>
      let sorted := sort_by_matches (scan_results re request w) in
      Response {| resp_query := query request;
                  count := List.length sorted;
                  results := slice_to (limit request) sorted |}
  end.

(** ** An engine for patterns without operators

    On a pattern made of ordinary characters and [.] only, a match has the
    length of the pattern: [.] stands for any character but the newline, any
    other character for itself, up to case under [re.IGNORECASE].  The
    examples and counterexamples below run on this engine and keep to such
    patterns; on any other pattern it answers [None]. *)

Definition is_operator (c : ascii) : bool :=
  PyStr.contains (String c EmptyString) "\^$*+?{}[]|()".

Fixpoint operator_free (p : string) : bool :=
  match p with
  | EmptyString => true
  | String c rest => negb (is_operator c) && operator_free rest
  end.

Definition char_matches (ignore_case : bool) (p c : ascii) : bool :=
  if Ascii.eqb p "."%char then negb (Ascii.eqb c newline)
  else if ignore_case then Ascii.eqb (PyStr.lower_char p) (PyStr.lower_char c)
  else Ascii.eqb p c.

(** The pattern anchored at the start of [s]. *)
Fixpoint match_here (ignore_case : bool) (p s : string) : bool :=
  match p, s with
  | EmptyString, _ => true
  | String _ _, EmptyString => false
  | String pc p', String c s' =>
      char_matches ignore_case pc c && match_here ignore_case p' s'
  end.

Fixpoint search_from (p s : string) : bool :=
  match_here false p s
  || match s with
     | EmptyString => false
     | String _ rest => search_from p rest
     end.

(** The number of non-overlapping matches, left to right; [skip] counts the
    characters of the last match still to pass.  The empty pattern matches
    once at every position, the end included. *)
Fixpoint count_matches_from (ignore_case : bool) (p : string) (skip : nat)
    (s : string) : nat :=
  match s with
  | EmptyString => if match_here ignore_case p s then 1 else 0
  | String _ rest =>
      match skip with
      | S k => count_matches_from ignore_case p k rest
      | O =>
          if match_here ignore_case p s
          then S (count_matches_from ignore_case p (String.length p - 1) rest)
          else count_matches_from ignore_case p 0 rest
      end
  end.

Definition plain_engine : regex_engine :=
  {| re_search p s :=
       if operator_free p then Some (search_from p s) else None;
     re_findall_count p s :=
       if operator_free p then Some (count_matches_from true p 0 s)
       else None |}.

(** ** Occurrences of a literal string

    The count the specification describes for the content mode: the
    non-overlapping occurrences of the query in the text, both in lower
    case, as [text.lower().count(query.lower())] gives them. *)
Fixpoint occurrences_from (needle : string) (skip : nat) (hay : string)
    : nat :=
  match hay with
  | EmptyString => if String.eqb needle EmptyString then 1 else 0
  | String _ rest =>
      match skip with
      | S k => occurrences_from needle k rest
      | O =>
          if String.prefix needle hay
          then S (occurrences_from needle (String.length needle - 1) rest)
          else occurrences_from needle 0 rest
      end
  end.

Definition spec_literal_occurrences (q text : string) : nat :=
  occurrences_from (PyStr.lower q) 0 (PyStr.lower text).

(** The search modes that the [if]/[elif] chain knows. *)
Definition known_modes : list string :=
  ["content"; "title"; "tags"; "backlinks"].

(** The order of the sorted results: no fewer matches in front. *)
Definition no_fewer (a b : search_result) : Prop :=
  (matches b <= matches a)%nat.

(** The results with exactly [c] matches, in the order of the list. *)
Definition with_matches (c : nat) (l : list search_result)
    : list search_result :=
  filter (fun r => Nat.eqb (matches r) c) l.

(** ** Reading the built graph *)

(** The edges of type [tag], in the order of the list. *)
Definition is_tag_edge (e : edge) : bool := negb (is_link e).

(** The files that the loops do not skip: the [.md] files that load. *)
Definition scannable (f : vault_file) : bool :=
  PyStr.endswith (file_name f) ".md"
  && match loaded f with Some _ => true | None => false end.

(** The walk without the directories of the excluded vault and without the
    files that the loops skip. *)
Definition scannable_walk (w : walk) : walk :=
  map (fun d => (fst d, filter scannable (snd d)))
      (filter (fun d => negb (is_excluded_path (fst d))) w).

(** The identifier [m] is [steps] edges away from [root], each edge taken
    in either direction. *)
Inductive reach (es : list edge) (root : string) : nat -> string -> Prop :=
| reach_root : reach es root 0 root
| reach_out (steps : nat) (e : edge) :
    reach es root steps (source e) -> In e es ->
    reach es root (S steps) (target e)
| reach_in (steps : nat) (e : edge) :
    reach es root steps (target e) -> In e es ->
    reach es root (S steps) (source e).

(** The [tag] edges of one scanned note: one per entry of its tag list. *)
Definition tag_edges (p : string * note_source) : list edge :=
  map (fun t => {| source := stem (fst p); target := t; type := tag |})
      (meta_tags (snd p)).

(** [c in s] for a character. *)
Fixpoint has_char (c : ascii) (s : string) : bool :=
  match s with
  | EmptyString => false
  | String x rest => Ascii.eqb x c || has_char c rest
  end.

(** ** Exceptions that an endpoint raises itself

    Every endpoint body runs under [try: ... except Exception as e: raise
    HTTPException(status_code=500, detail=str(e))], and [HTTPException] is
    an [Exception]: what the body raises is caught and raised again with
    status 500.  [exception_text] stands for [str(e)] of the caught
    exception, which the framework fixes. *)
Definition reraised {A : Type} (exception_text : Z -> string -> string)
    (body : outcome A) : outcome A :=
  match body with
  | Response a => Response a
  | HTTPException status detail =>
      HTTPException 500 (exception_text status detail)
  end.

(** ** [ai_assist] *)

Module Assist.

Record AIAssistRequest : Type := {
  action : string;
  note_path : option string;
  content : option string;
  context : option (list string)
}.

(** The entry that comes with ["action"]: ["result"], ["questions"] or
    ["outline"]. *)
Inductive entry : Type :=
| result (text : string)
| questions (items : list string)
| outline (text : string).

Record assist_response : Type := {
  resp_action : string;
  resp_entry : entry
}.

Definition known_actions : list string :=
  ["summarize"; "expand"; "connect"; "generate_questions"; "create_outline"].

Definition newline_text : string := String newline EmptyString.

Definition outline_text : string :=
  "## Main Topic" ++ newline_text
  ++ "### Key Point 1" ++ newline_text
  ++ "- Supporting detail" ++ newline_text
  ++ "- Evidence" ++ newline_text
  ++ newline_text
  ++ "### Key Point 2" ++ newline_text
  ++ "- Supporting detail" ++ newline_text
  ++ "- Evidence" ++ newline_text
  ++ newline_text
  ++ "### Conclusion" ++ newline_text
  ++ "- Summary" ++ newline_text
  ++ "- Next steps".

(** The body of the [try]. *)
Definition ai_assist_body (request : AIAssistRequest)
    : outcome assist_response :=
  if String.eqb (action request) "summarize" then
    Response {| resp_action := "summarize";
                resp_entry := result "This feature would use AI to create a concise summary of the content." |}
  else if String.eqb (action request) "expand" then
    Response {| resp_action := "expand";
                resp_entry := result "This feature would use AI to elaborate on the key points and add relevant details." |}
  else if String.eqb (action request) "connect" then
    Response {| resp_action := "connect";
                resp_entry := result "This feature would analyze content and suggest related notes to link." |}
  else if String.eqb (action request) "generate_questions" then
    Response {| resp_action := "generate_questions";
                resp_entry :=
                  questions ["What are the key assumptions here?";
                             "How does this relate to existing knowledge?";
                             "What are the potential implications?";
                             "What evidence supports this?";
                             "What alternative perspectives exist?"] |}
  else if String.eqb (action request) "create_outline" then
    Response {| resp_action := "create_outline";
                resp_entry := outline outline_text |}
  else HTTPException 400 ("Unknown action: " ++ action request).

Definition ai_assist (exception_text : Z -> string -> string)
    (request : AIAssistRequest) : outcome assist_response :=
  reraised exception_text (ai_assist_body request).

End Assist.

(** ** [get_vault_stats] *)

(** A file as [get_vault_stats] meets it, step by step: the text that
    [f.read()] gives, the [tags] and [modified] entries that
    [frontmatter.loads] finds in it, the modification time of the file in
    ISO format; each is [None] when the step raises. *)
Record disk_file : Type := {
  disk_name : string;
  disk_text : option string;
  disk_post : option (list string * string);
  disk_mtime : option string
}.

Definition disk_walk : Type := list (string * list disk_file).

(** The same file as [generate_graph] and [search_notes] meet it: it is
    loaded when it can be read and parsed. *)
Definition as_vault_file (f : disk_file) : vault_file :=
  {| file_name := disk_name f;
     loaded :=
       match disk_text f, disk_post f with
       | Some text, Some (tag_list, changed) =>
           Some {| content := text; meta_tags := tag_list;
                   meta_modified := changed |}
       | _, _ => None
       end |}.

Definition as_walk (dw : disk_walk) : walk :=
  map (fun d => (fst d, map as_vault_file (snd d))) dw.

(** [len(content.split())]: the runs of characters that are not white
    space. *)
Fixpoint count_words_from (in_word : bool) (s : string) : nat :=
  match s with
  | EmptyString => 0
  | String c rest =>
      if PyStr.isspace c then count_words_from false rest
      else (if in_word then 0 else 1) + count_words_from true rest
  end.

Definition count_words (s : string) : nat := count_words_from false s.

(** [s.add(x)] on a set of strings.  The order in which Python lists a set
    is not fixed; the model keeps the order of first insertion, and the
    facts below speak of membership only. *)
Definition set_add (x : string) (s : list string) : list string :=
  if existsb (String.eqb x) s then s else s ++ [x].

Module VaultStats.

Record recent_note : Type := {
  title : string;
  path : string;
  modified : string
}.

(** The [stats] dictionary with the two sets beside it. *)
Record tally : Type := {
  total_notes : nat;
  total_words : nat;
  total_links : nat;
  total_tags : list string;
  folders : dict nat;
  recent_notes : list recent_note;
  orphan_notes : list string;
  all_notes : list string;
  linked_notes : list string
}.

Definition empty_tally : tally :=
  {| total_notes := 0; total_words := 0; total_links := 0; total_tags := [];
     folders := []; recent_notes := []; orphan_notes := [];
     all_notes := []; linked_notes := [] |}.

(** The answer: the [stats] dictionary. *)
Record stats_response : Type := {
  resp_total_notes : nat;
  resp_total_words : nat;
  resp_total_links : nat;
  resp_total_tags : list string;
  resp_folders : dict nat;
  resp_recent_notes : list recent_note;
  resp_orphan_notes : list string
}.

(** [stats['folders'][folder_name] += 1] on a [defaultdict(int)]. *)
Definition bump (k : string) (d : dict nat) : dict nat :=
  dict_set k (match dict_get k d with Some n => n + 1 | None => 1 end) d.

(** The statements before the [try]. *)
Definition count_note (folder_name : string) (f : disk_file) (t : tally)
    : tally :=
  {| total_notes := total_notes t + 1;
     total_words := total_words t;
     total_links := total_links t;
     total_tags := total_tags t;
     folders := bump folder_name (folders t);
     recent_notes := recent_notes t;
     orphan_notes := orphan_notes t;
     all_notes := set_add (stem (disk_name f)) (all_notes t);
     linked_notes := linked_notes t |}.

(** Words and links of the text that was read. *)
Definition count_text (text : string) (t : tally) : tally :=
  {| total_notes := total_notes t;
     total_words := total_words t + count_words text;
     total_links := total_links t + List.length (findall_links text);
     total_tags := total_tags t;
     folders := folders t;
     recent_notes := recent_notes t;
     orphan_notes := orphan_notes t;
     all_notes := all_notes t;
     linked_notes :=
       fold_left (fun s l => set_add (clean_link l) s) (findall_links text)
                 (linked_notes t) |}.

(** The tags of the parsed metadata. *)
Definition count_tags (tag_list : list string) (t : tally) : tally :=
  {| total_notes := total_notes t;
     total_words := total_words t;
     total_links := total_links t;
     total_tags := fold_left (fun s x => set_add x s) tag_list (total_tags t);
     folders := folders t;
     recent_notes := recent_notes t;
     orphan_notes := orphan_notes t;
     all_notes := all_notes t;
     linked_notes := linked_notes t |}.

Definition count_recent (root : string) (f : disk_file) (changed : string)
    (t : tally) : tally :=
  {| total_notes := total_notes t;
     total_words := total_words t;
     total_links := total_links t;
     total_tags := total_tags t;
     folders := folders t;
     recent_notes :=
       recent_notes t
       ++ [{| title := stem (disk_name f);
              path := path_join root (disk_name f);
              modified := changed |}];
     orphan_notes := orphan_notes t;
     all_notes := all_notes t;
     linked_notes := linked_notes t |}.

(** One round of the loop over the files of a directory: the [try] stops
    at the first step that raises, and keeps what was counted before. *)
Definition count_file (root folder_name : string) (t : tally)
    (f : disk_file) : tally :=
  if PyStr.endswith (disk_name f) ".md" then
    let t1 := count_note folder_name f t in
    match disk_text f with
    | None => t1
    | Some text =>
        let t2 := count_text text t1 in
        match disk_post f with
        | None => t2
        | Some (tag_list, _) =>
            let t3 := count_tags tag_list t2 in
            match disk_mtime f with
            | None => t3
            | Some changed => count_recent root f changed t3
            end
        end
    end
  else t.

Section Scan.

(** [Path(root).relative_to(OBSIDIAN_VAULT_PATH).as_posix()] *)
Variable relative_folder : string -> string.

(** One round of the loop over [os.walk]. *)
Definition count_dir (t : tally) (d : string * list disk_file) : tally :=
  if is_excluded_path (fst d) then t
  else fold_left (count_file (fst d) (relative_folder (fst d))) (snd d) t.

Definition scan (dw : disk_walk) : tally :=
  fold_left count_dir dw empty_tally.

End Scan.

(** [recent_notes.sort(key=lambda x: x['modified'], reverse=True)]: stable,
    strings compared character by character. *)
Fixpoint insert_recent (x : recent_note) (sorted : list recent_note)
    : list recent_note :=
  match sorted with
  | [] => [x]
  | y :: rest =>
      if String.leb (modified y) (modified x) then x :: y :: rest
      else y :: insert_recent x rest
  end.

Definition sort_recent (l : list recent_note) : list recent_note :=
  fold_right insert_recent [] l.

(** [list(all_notes - linked_notes)] *)
Definition set_minus (a b : list string) : list string :=
  filter (fun x => negb (existsb (String.eqb x) b)) a.

Definition finish (t : tally) : stats_response :=
  {| resp_total_notes := total_notes t;
     resp_total_words := total_words t;
     resp_total_links := total_links t;
     resp_total_tags := total_tags t;
     resp_folders := folders t;
     resp_recent_notes := firstn 10 (sort_recent (recent_notes t));
     resp_orphan_notes := set_minus (all_notes t) (linked_notes t) |}.

(** The vault on disk for [get_vault_stats]. *)
Inductive disk_vault : Type :=
| DiskError (detail : string)
| DiskTree (dw : disk_walk).

Definition get_vault_stats (relative_folder : string -> string)
    (v : disk_vault) : outcome stats_response :=
  match v with
  | DiskError detail => HTTPException 500 detail
  | DiskTree dw => Response (finish (scan relative_folder dw))
  end.

End VaultStats.

(** The files of the directories outside the excluded vault, each with its
    directory, in scan order; and the [.md] files among them. *)
Definition files_under (dw : disk_walk) : list (string * disk_file) :=
  flat_map (fun d => if is_excluded_path (fst d) then []
                     else map (pair (fst d)) (snd d))
           dw.

Definition is_md (p : string * disk_file) : bool :=
  PyStr.endswith (disk_name (snd p)) ".md".

Definition md_files (dw : disk_walk) : list (string * disk_file) :=
  filter is_md (files_under dw).

(** The wiki links of a file whose text can be read. *)
Definition links_read (p : string * disk_file) : list string :=
  match disk_text (snd p) with
  | Some text => findall_links text
  | None => []
  end.

(** The entry of [recent_notes] of a file that passes every step of the
    [try]. *)
Definition recent_of (p : string * disk_file) : list VaultStats.recent_note :=
  match disk_text (snd p), disk_post (snd p), disk_mtime (snd p) with
  | Some _, Some _, Some changed =>
      [{| VaultStats.title := stem (disk_name (snd p));
          VaultStats.path := path_join (fst p) (disk_name (snd p));
          VaultStats.modified := changed |}]
  | _, _, _ => []
  end.

(** No earlier modification time in front. *)
Definition no_older (a b : VaultStats.recent_note) : Prop :=
  String.leb (VaultStats.modified b) (VaultStats.modified a) = true.

(** ** Sample vaults *)

Definition note (name text : string) (tags : list string) : vault_file :=
  {| file_name := name;
     loaded := Some {| content := text; meta_tags := tags;
                       meta_modified := "" |} |}.

(** The three notes of the specification's example. *)
Definition vault_abc : walk :=
  [("/vault", [note "A.md" "See [[B]] and [[C|alias]]" ["x"];
               note "B.md" "no links" ["x"];
               note "C.md" "[[A]]" []])].

(** [R] links to [A] and [B]; [B] is also three links away through [A] and
    [C]; [X] hangs off [B]. *)
Definition vault_detour : walk :=
  [("/vault", [note "R.md" "[[A]] [[B]]" [];
               note "A.md" "[[C]]" [];
               note "C.md" "[[B]]" [];
               note "B.md" "[[X]]" [];
               note "X.md" "" []])].

Definition graph_request (d : Z) (root : option string) : GraphRequest :=
  {| depth := d; node := root; include_tags := true;
     include_attachments := false |}.

Definition search_request (q mode : string) : SearchRequest :=
  {| query := q; folder := None; tags := None; limit := 50;
     search_type := mode |}.

(** A note that carries its own name as a tag, and a tag that is met before
    the note of the same name. *)
Definition vault_self_tag : walk :=
  [("/vault", [note "x.md" "text" ["x"]])].

Definition vault_tag_first : walk :=
  [("/vault", [note "a.md" "" ["b"]; note "b.md" "" []])].

(** A link written with blanks around its target. *)
Definition vault_spaced_link : walk :=
  [("/vault", [note "A.md" "[[ B |b]]" []])].

(** A release note that names two versions, and a note found by its title
    only. *)
Definition vault_release : walk :=
  [("/vault", [note "release.md" "v1.0 and v100" []])].

Definition vault_milk : walk :=
  [("/vault", [note "milk.md" "buy some" [];
               note "milkshake.md" "milk and more milk" []])].

(** A note tagged with the empty string: the graph gets a node whose
    identifier is empty. *)
Definition vault_blank_tag : walk :=
  [("/vault", [note "a.md" "" [""]])].

Local Open Scope nat_scope.

(** ** The definitions on small inputs *)

Example stem_plain : stem "Weekly Review.md" = "Weekly Review".
Proof. reflexivity. Qed.

Example stem_dotfile : stem ".md" = ".md".
Proof. reflexivity. Qed.

Example strip_both_sides :
  PyStr.strip (PyStr.split_head "|" "  B c |alias") = "B c".
Proof. reflexivity. Qed.

Example findall_links_alias :
  findall_links "See [[B]] and [[C|alias]]" = ["B"; "C|alias"].
Proof. reflexivity. Qed.

Example findall_links_nested_open : findall_links "[[[a]] ]] [[b" = ["[a"].
Proof. reflexivity. Qed.

Example findall_links_adjacent : findall_links "[[]][[x]]]]" = [""; "x"].
Proof. reflexivity. Qed.

Example findall_links_newline :
  findall_links ("[[a" ++ String newline "b]] [[c]]") = ["c"].
Proof. reflexivity. Qed.

Example build_graph_abc :
  build_graph true vault_abc
  = {| nodes := [("A", NoteNode "A" "A" "/vault/A.md" ["x"] 25);
                 ("x", TagNode "x" "#x" 1);
                 ("B", NoteNode "B" "B" "/vault/B.md" ["x"] 8);
                 ("C", NoteNode "C" "C" "/vault/C.md" [] 5)];
       edges := [{| source := "A"; target := "B"; type := link |};
                 {| source := "A"; target := "C"; type := link |};
                 {| source := "A"; target := "x"; type := tag |};
                 {| source := "B"; target := "x"; type := tag |};
                 {| source := "C"; target := "A"; type := link |}] |}.
Proof. reflexivity. Qed.

(** ** Facts about dictionaries *)

Section DictFacts.

Context {V : Type}.
Implicit Types (d : dict V) (k : string) (v : V).

Lemma dict_get_set_same k v d : dict_get k (dict_set k v d) = Some v.
Proof.
  induction d as [|[k' v'] d IH]; simpl.
  - now rewrite String.eqb_refl.
  - destruct (String.eqb k k') eqn:E; simpl.
    + now rewrite String.eqb_refl.
    + now rewrite E.
Qed.

Lemma dict_get_set_other k k' v d :
  k' <> k -> dict_get k' (dict_set k v d) = dict_get k' d.
Proof.
  intros Hne. induction d as [|[k0 v0] d IH]; simpl.
  - apply String.eqb_neq in Hne. now rewrite Hne.
  - destruct (String.eqb k k0) eqn:E; simpl.
    + apply String.eqb_eq in E. subst k0.
      apply String.eqb_neq in Hne. now rewrite Hne.
    + now rewrite IH.
Qed.

Lemma dict_mem_set k k' v d :
  dict_mem k' (dict_set k v d) = String.eqb k' k || dict_mem k' d.
Proof.
  unfold dict_mem. destruct (String.eqb k' k) eqn:E.
  - apply String.eqb_eq in E. subst. now rewrite dict_get_set_same.
  - apply String.eqb_neq in E. now rewrite dict_get_set_other.
Qed.

Lemma dict_mem_keys k d : dict_mem k d = true <-> In k (dict_keys d).
Proof.
  unfold dict_mem. induction d as [|[k' v'] d IH]; simpl.
  - split; [discriminate | tauto].
  - destruct (String.eqb k k') eqn:E.
    + apply String.eqb_eq in E. subst. tauto.
    + apply String.eqb_neq in E. rewrite IH. split; [tauto|].
      intros [H|H]; [congruence | exact H].
Qed.

Lemma dict_keys_set k k' v d :
  In k' (dict_keys (dict_set k v d)) <-> k' = k \/ In k' (dict_keys d).
Proof.
  rewrite <- !dict_mem_keys, dict_mem_set, orb_true_iff, String.eqb_eq.
  tauto.
Qed.

Lemma dict_set_NoDup k v d :
  NoDup (dict_keys d) -> NoDup (dict_keys (dict_set k v d)).
Proof.
  induction d as [|[k' v'] d IH]; simpl; intros Hnd.
  - constructor; [tauto | constructor].
  - inversion Hnd as [|? ? Hnotin Hnd']; subst.
    destruct (String.eqb k k') eqn:E; simpl.
    + apply String.eqb_eq in E. subst. now constructor.
    + apply String.eqb_neq in E. constructor; [|now apply IH].
      change (~ In k' (dict_keys (dict_set k v d))).
      rewrite dict_keys_set. intros [H|H]; [congruence | tauto].
Qed.

Lemma dict_set_In k v d k0 v0 :
  In (k0, v0) (dict_set k v d) ->
  (k0 = k /\ v0 = v) \/ In (k0, v0) d.
Proof.
  induction d as [|[k' v'] d IH]; simpl.
  - intros [H|[]]. inversion H. auto.
  - destruct (String.eqb k k') eqn:E; simpl.
    + intros [H|H]; [inversion H; auto | auto].
    + intros [H|H]; [auto | destruct (IH H); auto].
Qed.

End DictFacts.

(** ** The depth filter: when it applies, and the shallow depths *)

Lemma traverse_unfold (all_nodes : dict node_record) (all_edges : list edge)
    (n : string) (d : Z) (st : selection) :
  traverse all_nodes all_edges n d st
  = if (d <=? 0)%Z then st
    else match dict_get n all_nodes with
         | None => st
         | Some record =>
             fold_left
               (visit_edge (fun m s => traverse all_nodes all_edges m (d - 1) s) n)
               all_edges (keep_node n record st)
         end.
Proof.
  unfold traverse. destruct (Z.leb_spec d 0) as [Hle|Hgt].
  - replace (Z.to_nat d) with 0%nat by lia. reflexivity.
  - replace (Z.to_nat d) with (S (Z.to_nat (d - 1))) by lia. reflexivity.
Qed.

Lemma scoped_present (request : GraphRequest) (g : graph) (r : string) :
  node request = Some r -> r <> "" -> dict_mem r (nodes g) = true ->
  scoped request g = Some r.
Proof.
  intros Hn Hr Hin. unfold scoped. rewrite Hn, Hin.
  apply String.eqb_neq in Hr. now rewrite Hr.
Qed.

Lemma scoped_absent (request : GraphRequest) (g : graph) (r : string) :
  node request = Some r -> dict_mem r (nodes g) = false ->
  scoped request g = None.
Proof.
  intros Hn Hout. unfold scoped. rewrite Hn, Hout.
  now rewrite andb_false_r.
Qed.

(** C1, as the specification states it, fails: the root [Z] is not a node
    of the example vault, and the answer holds the four nodes and the five
    edges of the whole graph. *)
Lemma absent_root_answer_not_empty :
  dict_mem "Z" (nodes (build_graph true vault_abc)) = false
  /\ exists resp,
       generate_graph (graph_request 2 (Some "Z")) (VaultTree vault_abc)
       = Response resp
       /\ List.length (resp_nodes resp) = 4%nat
       /\ List.length (resp_edges resp) = 5%nat.
Proof.
  split; [reflexivity|]. eexists. split; [reflexivity|]. split; reflexivity.
Qed.

(** C1, amended: for every vault, every depth and every requested root that
    is not a node of the full graph, [generate_graph] skips the depth filter
    and answers with the whole graph: all its nodes and all its edges. *)
Theorem absent_root_returns_whole_graph
    (request : GraphRequest) (w : walk) (r : string) :
  node request = Some r ->
  dict_mem r (nodes (build_graph (include_tags request) w)) = false ->
  generate_graph request (VaultTree w)
  = Response (respond (build_graph (include_tags request) w)).
Proof.
  intros Hn Hout. unfold generate_graph, filter_graph.
  now rewrite (scoped_absent _ _ _ Hn Hout).
Qed.

Lemma absent_root_returns_whole_graph_witness :
  generate_graph (graph_request 2 (Some "Z")) (VaultTree vault_abc)
  = Response (respond (build_graph true vault_abc)).
Proof.
  apply (absent_root_returns_whole_graph
           (graph_request 2 (Some "Z")) vault_abc "Z"); reflexivity.
Defined.

(** At one level the selection keeps the root alone and the loop keeps every
    edge that joins the root to another identifier. *)
Lemma visit_edges_one_level (r : string) (record : node_record)
    (es acc : list edge) :
  fold_left (visit_edge (fun _ st => st) r) es
            {| filtered_nodes := [(r, record)]; filtered_edges := acc |}
  = {| filtered_nodes := [(r, record)];
       filtered_edges := acc ++ filter (joins_other r) es |}.
Proof.
  revert acc. induction es as [|e es IH]; intros acc; simpl.
  - now rewrite app_nil_r.
  - unfold visit_edge at 2, joins_other, dict_mem, keep_edge. simpl.
    destruct (String.eqb (source e) r) eqn:Es;
      destruct (String.eqb (target e) r) eqn:Et; simpl;
      rewrite ?IH, <- ?app_assoc; reflexivity.
Qed.

(** C3, as the specification states it, fails: [R] is a note of the vault,
    and at depth 0 the answer has no node at all. *)
Lemma depth_zero_answer_lacks_root :
  dict_mem "R" (nodes (build_graph true vault_detour)) = true
  /\ exists resp,
       generate_graph (graph_request 0 (Some "R")) (VaultTree vault_detour)
       = Response resp
       /\ resp_nodes resp = [] /\ resp_edges resp = [].
Proof.
  split; [reflexivity|]. eexists. split; [reflexivity|]. split; reflexivity.
Qed.

(** C3, amended: for every vault and every non-empty root identifier that is
    a node of the full graph, the scoped traversal at depth 0 (or below)
    returns no node and no edge; it is at depth 1 that it returns exactly
    the root node, together with the edges of the full list that join the
    root to another identifier. *)
Theorem depth_zero_empty_depth_one_root
    (request : GraphRequest) (w : walk) (r : string) (record : node_record) :
  node request = Some r ->
  r <> "" ->
  dict_get r (nodes (build_graph (include_tags request) w)) = Some record ->
  ((depth request <= 0)%Z ->
   generate_graph request (VaultTree w) = Response (respond empty_graph))
  /\ (depth request = 1%Z ->
      exists resp,
        generate_graph request (VaultTree w) = Response resp
        /\ resp_nodes resp = [record]
        /\ resp_edges resp
           = filter (joins_other r)
                    (edges (build_graph (include_tags request) w))).
Proof.
  intros Hn Hr Hget.
  assert (Hin : dict_mem r (nodes (build_graph (include_tags request) w)) = true)
    by (unfold dict_mem; now rewrite Hget).
  unfold generate_graph, filter_graph.
  rewrite (scoped_present _ _ _ Hn Hr Hin). split; intros Hd.
  - rewrite traverse_unfold.
    destruct (Z.leb_spec (depth request) 0) as [_|Hgt]; [reflexivity | lia].
  - rewrite Hd. unfold traverse. simpl Z.to_nat.
    change (Pos.to_nat 1) with 1%nat. simpl traverse_levels. rewrite Hget.
    unfold keep_node, empty_selection. simpl.
    rewrite visit_edges_one_level. eexists. split; [reflexivity|].
    split; reflexivity.
Qed.

Lemma depth_zero_empty_depth_one_root_witness :
  generate_graph (graph_request 0 (Some "R")) (VaultTree vault_detour)
  = Response (respond empty_graph).
Proof.
  refine (proj1 (depth_zero_empty_depth_one_root
                   (graph_request 0 (Some "R")) vault_detour "R"
                   (NoteNode "R" "R" "/vault/R.md" [] 11) _ _ _) _).
  - reflexivity.
  - discriminate.
  - reflexivity.
  - apply Z.le_refl.
Defined.

(** The empty identifier can be a node (a tag), but as a requested root it
    is falsy: the depth filter is skipped, whatever the depth. *)
Example empty_root_skips_the_filter :
  dict_mem "" (nodes (build_graph true vault_blank_tag)) = true
  /\ generate_graph (graph_request 0 (Some "")) (VaultTree vault_blank_tag)
     = Response (respond (build_graph true vault_blank_tag))
  /\ List.length (nodes (build_graph true vault_blank_tag)) = 2.
Proof. repeat split; reflexivity. Qed.

(** C2: the code does not keep the claim.  In the vault [vault_detour] the
    note [X] is two links from the root [R] (through [B]).  At depth 3 the
    traversal reaches [B] from [R] with two levels left and takes [X]; at
    depth 4 it first reaches [B] on the detour through [A] and [C] with one
    level left, marks it, and never comes back: [X] is lost. *)
Theorem deeper_traversal_loses_a_node :
  exists shallow deep,
    generate_graph (graph_request 3 (Some "R")) (VaultTree vault_detour)
    = Response shallow
    /\ generate_graph (graph_request 4 (Some "R")) (VaultTree vault_detour)
       = Response deep
    /\ map node_id (resp_nodes shallow) = ["R"; "A"; "C"; "B"; "X"]
    /\ map node_id (resp_nodes deep) = ["R"; "A"; "C"; "B"].
Proof.
  do 2 eexists. repeat split; reflexivity.
Qed.

(** ** The graph builder: identifiers *)

(** Keys are unique and every record sits under its own identifier. *)
Definition well_keyed (d : dict node_record) : Prop :=
  NoDup (dict_keys d) /\ forall k v, In (k, v) d -> node_id v = k.

(** The identifier [n] holds a note record. *)
Definition holds_note (n : string) (d : dict node_record) : Prop :=
  exists v, dict_get n d = Some v /\ is_note v = true.

Lemma well_keyed_set (k : string) (v : node_record) (d : dict node_record) :
  node_id v = k -> well_keyed d -> well_keyed (dict_set k v d).
Proof.
  intros Hid [Hnd Hids]. split.
  - now apply dict_set_NoDup.
  - intros k0 v0 Hin. apply dict_set_In in Hin.
    destruct Hin as [[-> ->]|Hin]; [exact Hid | now apply Hids].
Qed.

Lemma holds_note_set_other (n k : string) (v : node_record)
    (d : dict node_record) :
  dict_mem k d = false -> holds_note n d -> holds_note n (dict_set k v d).
Proof.
  intros Hout [v0 [Hget Hnote]]. exists v0. split; [|exact Hnote].
  rewrite dict_get_set_other; [exact Hget|].
  intros ->. unfold dict_mem in Hout. now rewrite Hget in Hout.
Qed.

Lemma holds_note_set_note (n k : string) (v : node_record)
    (d : dict node_record) :
  is_note v = true -> holds_note n d -> holds_note n (dict_set k v d).
Proof.
  intros Hv [v0 [Hget Hnote]]. destruct (string_dec n k) as [->|Hne].
  - exists v. now rewrite dict_get_set_same.
  - exists v0. now rewrite dict_get_set_other.
Qed.

Section BuildSteps.

Variable with_tags : bool.

Lemma add_tag_nodes (name : string) (g : graph) (t : string) :
  nodes (add_tag name g t)
  = if dict_mem t (nodes g) then nodes g
    else dict_set t (TagNode t ("#" ++ t) 1) (nodes g).
Proof. reflexivity. Qed.

Lemma add_tags_well_keyed (name : string) (ts : list string) (g : graph) :
  well_keyed (nodes g) ->
  well_keyed (nodes (fold_left (add_tag name) ts g)).
Proof.
  revert g. induction ts as [|t ts IH]; intros g Hg; simpl; [exact Hg|].
  apply IH. rewrite add_tag_nodes.
  destruct (dict_mem t (nodes g)); [exact Hg|].
  now apply well_keyed_set.
Qed.

Lemma add_tags_holds_note (n name : string) (ts : list string) (g : graph) :
  holds_note n (nodes g) ->
  holds_note n (nodes (fold_left (add_tag name) ts g)).
Proof.
  revert g. induction ts as [|t ts IH]; intros g Hg; simpl; [exact Hg|].
  apply IH. rewrite add_tag_nodes.
  destruct (dict_mem t (nodes g)) eqn:E; [exact Hg|].
  now apply holds_note_set_other.
Qed.

Lemma add_tags_links (name : string) (ts : list string) (g : graph) :
  filter is_link (edges (fold_left (add_tag name) ts g))
  = filter is_link (edges g).
Proof.
  revert g. induction ts as [|t ts IH]; intros g; simpl; [reflexivity|].
  rewrite IH. simpl. rewrite filter_app. simpl. apply app_nil_r.
Qed.

Lemma filter_link_edges (name text : string) :
  filter is_link (link_edges name text) = link_edges name text.
Proof.
  unfold link_edges. induction (findall_links text) as [|l ls IH]; simpl.
  - reflexivity.
  - now rewrite IH.
Qed.

Lemma add_file_well_keyed (root : string) (g : graph) (f : vault_file) :
  well_keyed (nodes g) -> well_keyed (nodes (add_file with_tags root g f)).
Proof.
  intros Hg. unfold add_file.
  destruct (PyStr.endswith (file_name f) ".md"); [|exact Hg].
  destruct (loaded f) as [src|]; [|exact Hg].
  destruct with_tags.
  - apply add_tags_well_keyed. simpl. now apply well_keyed_set.
  - simpl. now apply well_keyed_set.
Qed.

Lemma add_file_holds_note (n root : string) (g : graph) (f : vault_file) :
  holds_note n (nodes g) -> holds_note n (nodes (add_file with_tags root g f)).
Proof.
  intros Hg. unfold add_file.
  destruct (PyStr.endswith (file_name f) ".md"); [|exact Hg].
  destruct (loaded f) as [src|]; [|exact Hg].
  destruct with_tags.
  - apply add_tags_holds_note. simpl. now apply holds_note_set_note.
  - simpl. now apply holds_note_set_note.
Qed.

Lemma add_file_scanned_note (root : string) (g : graph) (f : vault_file)
    (name : string) (src : note_source) :
  In (name, src) (scanned_in [f]) ->
  holds_note (stem name) (nodes (add_file with_tags root g f)).
Proof.
  unfold scanned_in, add_file. simpl.
  destruct (PyStr.endswith (file_name f) ".md"); [|intros []].
  destruct (loaded f) as [src0|]; [|intros []].
  simpl. intros [Heq|[]]. inversion Heq; subst.
  assert (Hset : forall d,
             holds_note (stem (file_name f))
               (dict_set (stem (file_name f))
                  (NoteNode (stem (file_name f)) (stem (file_name f))
                     (path_join root (file_name f)) (meta_tags src)
                     (String.length (content src))) d)).
  { intros d. eexists. split; [apply dict_get_set_same | reflexivity]. }
  destruct with_tags.
  - apply add_tags_holds_note. simpl. apply Hset.
  - simpl. apply Hset.
Qed.

Lemma add_file_links (root : string) (g : graph) (f : vault_file) :
  filter is_link (edges (add_file with_tags root g f))
  = filter is_link (edges g)
    ++ flat_map (fun p => link_edges (stem (fst p)) (content (snd p)))
                (scanned_in [f]).
Proof.
  unfold scanned_in, add_file. simpl.
  destruct (PyStr.endswith (file_name f) ".md");
    [|now rewrite app_nil_r].
  destruct (loaded f) as [src|]; [|now rewrite app_nil_r].
  simpl. rewrite app_nil_r.
  destruct with_tags; [rewrite add_tags_links|]; simpl;
    now rewrite filter_app, filter_link_edges.
Qed.

Lemma scanned_in_cons (f : vault_file) (files : list vault_file) :
  scanned_in (f :: files) = scanned_in [f] ++ scanned_in files.
Proof. unfold scanned_in. simpl. now rewrite app_nil_r. Qed.

Lemma add_files_well_keyed (root : string) (files : list vault_file)
    (g : graph) :
  well_keyed (nodes g) ->
  well_keyed (nodes (fold_left (add_file with_tags root) files g)).
Proof.
  revert g. induction files as [|f files IH]; intros g Hg; simpl; [exact Hg|].
  apply IH. now apply add_file_well_keyed.
Qed.

Lemma add_files_holds_note (n root : string) (files : list vault_file)
    (g : graph) :
  holds_note n (nodes g) ->
  holds_note n (nodes (fold_left (add_file with_tags root) files g)).
Proof.
  revert g. induction files as [|f files IH]; intros g Hg; simpl; [exact Hg|].
  apply IH. now apply add_file_holds_note.
Qed.

Lemma add_files_scanned_note (root : string) (files : list vault_file)
    (g : graph) (name : string) (src : note_source) :
  In (name, src) (scanned_in files) ->
  holds_note (stem name)
             (nodes (fold_left (add_file with_tags root) files g)).
Proof.
  revert g. induction files as [|f files IH]; intros g Hin; [destruct Hin|].
  rewrite scanned_in_cons in Hin. apply in_app_or in Hin. simpl.
  destruct Hin as [Hin|Hin].
  - apply add_files_holds_note. now apply add_file_scanned_note with src.
  - now apply IH.
Qed.

Lemma add_files_links (root : string) (files : list vault_file) (g : graph) :
  filter is_link (edges (fold_left (add_file with_tags root) files g))
  = filter is_link (edges g)
    ++ flat_map (fun p => link_edges (stem (fst p)) (content (snd p)))
                (scanned_in files).
Proof.
  revert g. induction files as [|f files IH]; intros g.
  - simpl. now rewrite app_nil_r.
  - rewrite scanned_in_cons, flat_map_app. simpl fold_left.
    rewrite IH, add_file_links. now rewrite app_assoc.
Qed.

Lemma add_dirs_well_keyed (w : walk) (g : graph) :
  well_keyed (nodes g) ->
  well_keyed (nodes (fold_left (add_dir with_tags) w g)).
Proof.
  revert g. induction w as [|d w IH]; intros g Hg; simpl; [exact Hg|].
  apply IH. unfold add_dir.
  destruct (is_excluded_path (fst d)); [exact Hg|].
  now apply add_files_well_keyed.
Qed.

Lemma add_dirs_holds_note (n : string) (w : walk) (g : graph) :
  holds_note n (nodes g) ->
  holds_note n (nodes (fold_left (add_dir with_tags) w g)).
Proof.
  revert g. induction w as [|d w IH]; intros g Hg; simpl; [exact Hg|].
  apply IH. unfold add_dir.
  destruct (is_excluded_path (fst d)); [exact Hg|].
  now apply add_files_holds_note.
Qed.

Lemma add_dirs_scanned_note (w : walk) (g : graph) (name : string)
    (src : note_source) :
  In (name, src) (scanned_files w) ->
  holds_note (stem name) (nodes (fold_left (add_dir with_tags) w g)).
Proof.
  revert g. induction w as [|d w IH]; intros g Hin; [destruct Hin|].
  unfold scanned_files in Hin. simpl in Hin. apply in_app_or in Hin. simpl.
  destruct Hin as [Hin|Hin].
  - apply add_dirs_holds_note. unfold add_dir.
    destruct (is_excluded_path (fst d)); [destruct Hin|].
    now apply add_files_scanned_note with src.
  - now apply IH.
Qed.

Lemma add_dirs_links (w : walk) (g : graph) :
  filter is_link (edges (fold_left (add_dir with_tags) w g))
  = filter is_link (edges g)
    ++ flat_map (fun p => link_edges (stem (fst p)) (content (snd p)))
                (scanned_files w).
Proof.
  revert g. induction w as [|d w IH]; intros g.
  - simpl. now rewrite app_nil_r.
  - unfold scanned_files. simpl. rewrite flat_map_app, IH. unfold add_dir.
    destruct (is_excluded_path (fst d)).
    + reflexivity.
    + now rewrite add_files_links, app_assoc.
Qed.

End BuildSteps.

Lemma build_graph_well_keyed (with_tags : bool) (w : walk) :
  well_keyed (nodes (build_graph with_tags w)).
Proof.
  apply add_dirs_well_keyed. split; [constructor | intros k v []].
Qed.

(** ** The graph builder: the claims *)

(** C9, as the specification states it, fails.  The note [x] is tagged [x]:
    the graph has one record under [x], the note's, and no tag node, while
    the tag edge runs from [x] to [x].  And where the tag [b] is met before
    the note [b.md], the note's record replaces the tag's. *)
Lemma tag_and_note_share_a_record :
  In ("x.md", {| content := "text"; meta_tags := ["x"]; meta_modified := "" |})
     (scanned_files vault_self_tag)
  /\ build_graph true vault_self_tag
     = {| nodes := [("x", NoteNode "x" "x" "/vault/x.md" ["x"] 4)];
          edges := [{| source := "x"; target := "x"; type := tag |}] |}
  /\ dict_get "b" (nodes (build_graph true [("/vault", [note "a.md" "" ["b"]])]))
     = Some (TagNode "b" "#b" 1)
  /\ dict_get "b" (nodes (build_graph true vault_tag_first))
     = Some (NoteNode "b" "b" "/vault/b.md" [] 0)
  /\ filter is_tag (dict_values (nodes (build_graph true vault_tag_first)))
     = [].
Proof.
  split; [left; reflexivity|]. repeat split; reflexivity.
Qed.

(** C9, amended: for every vault, with or without tag nodes, the node
    identifiers of the built graph are unique and every record is stored
    under its own identifier; a tag equal to the name of a scanned note does
    not get a node of its own: under the name of every scanned note the
    graph holds a single record, and it is a note record. *)
Theorem identifiers_unique_and_notes_win (with_tags : bool) (w : walk) :
  NoDup (dict_keys (nodes (build_graph with_tags w)))
  /\ (forall k v, In (k, v) (nodes (build_graph with_tags w)) -> node_id v = k)
  /\ (forall name src,
        In (name, src) (scanned_files w) ->
        exists v,
          dict_get (stem name) (nodes (build_graph with_tags w)) = Some v
          /\ is_note v = true).
Proof.
  destruct (build_graph_well_keyed with_tags w) as [Hnd Hids].
  split; [exact Hnd|]. split; [exact Hids|].
  intros name src Hin. now apply add_dirs_scanned_note with src.
Qed.

(** C7, as the specification states it, fails on the destination: the link
    text [ B |b] gives the edge target [B], not the text before the bar,
    which keeps its blanks. *)
Lemma link_target_loses_blanks :
  findall_links "[[ B |b]]" = [" B |b"]
  /\ PyStr.split_head "|" " B |b" = " B "
  /\ edges (build_graph true vault_spaced_link)
     = [{| source := "A"; target := "B"; type := link |}].
Proof. repeat split; reflexivity. Qed.

(** C7, amended: for every vault, the [link] edges of the built graph are,
    in order, one per [[[...]]] match in the raw text of every scanned note
    (so their number is the total number of matches, duplicates kept), and
    the destination of each is the matched text before its first [|] with
    the white space at both ends removed. *)
Theorem link_edges_follow_matches (with_tags : bool) (w : walk) :
  filter is_link (edges (build_graph with_tags w))
  = flat_map
      (fun p =>
         map (fun l => {| source := stem (fst p);
                          target := PyStr.strip (PyStr.split_head "|" l);
                          type := link |})
             (findall_links (content (snd p))))
      (scanned_files w)
  /\ List.length (filter is_link (edges (build_graph with_tags w)))
     = list_sum
         (map (fun p => List.length (findall_links (content (snd p))))
              (scanned_files w)).
Proof.
  assert (Heq : filter is_link (edges (build_graph with_tags w))
                = flat_map
                    (fun p => link_edges (stem (fst p)) (content (snd p)))
                    (scanned_files w)).
  { unfold build_graph. now rewrite add_dirs_links. }
  split; [exact Heq|]. rewrite Heq. clear Heq.
  induction (scanned_files w) as [|p ps IH]; simpl; [reflexivity|].
  rewrite length_app, IH. unfold link_edges. now rewrite length_map.
Qed.

(** ** The scoped traversal: what a call adds *)

Section TraverseFacts.

Variable all_nodes : dict node_record.
Variable all_edges : list edge.

Local Abbreviation cnt := (count_occ edge_eq_dec).
Local Abbreviation kept k st := (dict_mem k (filtered_nodes st) = true).
Local Abbreviation fresh k st := (dict_mem k (filtered_nodes st) = false).

(** What a call of [traverse] started in [st] leaves in [out]: kept nodes
    stay; an edge with an endpoint already kept is not added; no edge is
    added more often than the full list has it; an edge is only added when
    one of its endpoints ends up kept. *)
Record extends (st out : selection) : Prop := {
  ext_nodes : forall k, kept k st -> kept k out;
  ext_touched : forall e,
    kept (source e) st \/ kept (target e) st ->
    cnt (filtered_edges out) e = cnt (filtered_edges st) e;
  ext_bound : forall e,
    cnt (filtered_edges out) e
    <= cnt (filtered_edges st) e + cnt all_edges e;
  ext_far : forall e,
    fresh (source e) out -> fresh (target e) out ->
    cnt (filtered_edges out) e = cnt (filtered_edges st) e
}.

(** The state [cur] of the loop over the edges in the call for [n] started
    in [st], when the edges [pre] are done. *)
Record loop_inv (st : selection) (n : string) (pre : list edge)
    (cur : selection) : Prop := {
  inv_root : kept n cur;
  inv_nodes : forall k, kept k st -> kept k cur;
  inv_touched : forall e,
    kept (source e) st \/ kept (target e) st ->
    cnt (filtered_edges cur) e = cnt (filtered_edges st) e;
  inv_incident : forall e,
    source e = n \/ target e = n ->
    cnt (filtered_edges cur) e <= cnt (filtered_edges st) e + cnt pre e;
  inv_other : forall e,
    source e <> n -> target e <> n ->
    cnt (filtered_edges cur) e
    <= cnt (filtered_edges st) e + cnt all_edges e;
  inv_far : forall e,
    fresh (source e) cur -> fresh (target e) cur ->
    cnt (filtered_edges cur) e = cnt (filtered_edges st) e
}.

Lemma extends_refl (st : selection) : extends st st.
Proof. constructor; intros; auto; lia. Qed.

Lemma cnt_snoc_other (l : list edge) (x e : edge) :
  x <> e -> cnt (l ++ [x]) e = cnt l e.
Proof.
  intros Hne. rewrite count_occ_app. simpl.
  destruct (edge_eq_dec x e); [contradiction | lia].
Qed.

Lemma fresh_not_kept (k : string) (st : selection) :
  fresh k st -> kept k st -> False.
Proof. intros H1 H2. rewrite H1 in H2. discriminate. Qed.

Lemma fresh_or_kept (k : string) (st : selection) : fresh k st \/ kept k st.
Proof. destruct (dict_mem k (filtered_nodes st)); auto. Qed.

Lemma loop_start (st : selection) (n : string) (record : node_record) :
  loop_inv st n [] (keep_node n record st).
Proof.
  constructor; simpl; intros.
  - rewrite dict_mem_set, String.eqb_refl. reflexivity.
  - rewrite dict_mem_set. rewrite H. apply orb_true_r.
  - reflexivity.
  - lia.
  - lia.
  - reflexivity.
Qed.

Lemma loop_done (st : selection) (n : string) (cur : selection) :
  loop_inv st n all_edges cur -> extends st cur.
Proof.
  intros I. constructor.
  - apply (inv_nodes _ _ _ _ I).
  - apply (inv_touched _ _ _ _ I).
  - intros e. destruct (string_dec (source e) n) as [Hs|Hs].
    + apply (inv_incident _ _ _ _ I). now left.
    + destruct (string_dec (target e) n) as [Ht|Ht].
      * apply (inv_incident _ _ _ _ I). now right.
      * now apply (inv_other _ _ _ _ I).
  - apply (inv_far _ _ _ _ I).
Qed.

Section Level.

Variable below : nat.
Hypothesis calls_below : forall m s,
  fresh m s -> extends s (traverse_levels all_nodes all_edges below m s).

(** The loop takes the edge [x] between [n] and [m], and descends to [m]. *)
Lemma descend_inv (st : selection) (n : string) (pre : list edge)
    (cur : selection) (x : edge) (m : string) :
  fresh n st ->
  loop_inv st n pre cur ->
  (source x = n /\ target x = m) \/ (target x = n /\ source x = m) ->
  fresh m cur ->
  loop_inv st n (pre ++ [x])
           (traverse_levels all_nodes all_edges below m (keep_edge x cur)).
Proof.
  intros Hn I Hx Hm.
  assert (E := calls_below m (keep_edge x cur) Hm).
  set (out := traverse_levels all_nodes all_edges below m (keep_edge x cur))
    in *.
  assert (Hroot : kept n out)
    by (apply (ext_nodes _ _ E); exact (inv_root _ _ _ _ I)).
  assert (Hx_st : forall k, source x = k \/ target x = k -> kept k st -> False).
  { intros k Hk Hkept.
    assert (Hcur := inv_nodes _ _ _ _ I k Hkept).
    destruct Hx as [[Hs Ht]|[Ht Hs]], Hk as [Hk|Hk]; subst;
      solve [ eapply fresh_not_kept; [exact Hn | congruence]
            | eapply fresh_not_kept; [exact Hm | congruence] ]. }
  constructor.
  - exact Hroot.
  - intros k Hk. apply (ext_nodes _ _ E). exact (inv_nodes _ _ _ _ I k Hk).
  - intros e He.
    rewrite (ext_touched _ _ E).
    + simpl. rewrite cnt_snoc_other; [exact (inv_touched _ _ _ _ I e He)|].
      intros ->. destruct He as [He|He]; eapply Hx_st; eauto.
    + simpl. destruct He as [He|He];
        [left | right]; exact (inv_nodes _ _ _ _ I _ He).
  - intros e He.
    rewrite (ext_touched _ _ E).
    + simpl. rewrite !count_occ_app.
      pose proof (inv_incident _ _ _ _ I e He). lia.
    + simpl. destruct He as [He|He]; rewrite He;
        [left | right]; exact (inv_root _ _ _ _ I).
  - intros e Hs Ht.
    assert (Hxe : x <> e)
      by (intros ->; destruct Hx as [[? ?]|[? ?]]; contradiction).
    destruct (fresh_or_kept (source e) cur) as [Fs|Ks];
      [destruct (fresh_or_kept (target e) cur) as [Ft|Kt]|].
    + pose proof (ext_bound _ _ E e) as Hb. simpl in Hb.
      rewrite cnt_snoc_other in Hb by exact Hxe.
      rewrite (inv_far _ _ _ _ I e Fs Ft) in Hb. exact Hb.
    + rewrite (ext_touched _ _ E) by (simpl; now right).
      simpl. rewrite cnt_snoc_other by exact Hxe.
      now apply (inv_other _ _ _ _ I).
    + rewrite (ext_touched _ _ E) by (simpl; now left).
      simpl. rewrite cnt_snoc_other by exact Hxe.
      now apply (inv_other _ _ _ _ I).
  - intros e Fs Ft.
    assert (Fs' : fresh (source e) cur).
    { destruct (fresh_or_kept (source e) cur) as [F|K]; [exact F|].
      exfalso. eapply fresh_not_kept; [exact Fs|].
      apply (ext_nodes _ _ E). exact K. }
    assert (Ft' : fresh (target e) cur).
    { destruct (fresh_or_kept (target e) cur) as [F|K]; [exact F|].
      exfalso. eapply fresh_not_kept; [exact Ft|].
      apply (ext_nodes _ _ E). exact K. }
    rewrite (ext_far _ _ E e Fs Ft). simpl.
    rewrite cnt_snoc_other; [exact (inv_far _ _ _ _ I e Fs' Ft')|].
    intros ->. destruct Hx as [[Hs _]|[Ht _]].
    + eapply fresh_not_kept; [exact Fs | now rewrite Hs].
    + eapply fresh_not_kept; [exact Ft | now rewrite Ht].
Qed.

Lemma skip_inv (st : selection) (n : string) (pre : list edge)
    (cur : selection) (x : edge) :
  loop_inv st n pre cur -> loop_inv st n (pre ++ [x]) cur.
Proof.
  intros I. constructor; try apply I.
  intros e He. pose proof (inv_incident _ _ _ _ I e He).
  rewrite count_occ_app. lia.
Qed.

Lemma visit_edge_inv (st : selection) (n : string) (pre : list edge)
    (cur : selection) (x : edge) :
  fresh n st ->
  loop_inv st n pre cur ->
  loop_inv st n (pre ++ [x])
           (visit_edge (traverse_levels all_nodes all_edges below) n cur x).
Proof.
  intros Hn I. unfold visit_edge.
  destruct (String.eqb (source x) n) eqn:Es;
    destruct (dict_mem (target x) (filtered_nodes cur)) eqn:Mt; simpl.
  2: { apply String.eqb_eq in Es.
       apply descend_inv; auto. }
  all: destruct (String.eqb (target x) n) eqn:Et;
    destruct (dict_mem (source x) (filtered_nodes cur)) eqn:Ms; simpl;
    try (now apply skip_inv).
  all: apply String.eqb_eq in Et; apply descend_inv; auto.
Qed.

Lemma visit_edges_inv (st : selection) (n : string) (post pre : list edge)
    (cur : selection) :
  fresh n st ->
  loop_inv st n pre cur ->
  loop_inv st n (pre ++ post)
           (fold_left (visit_edge (traverse_levels all_nodes all_edges below) n)
                      post cur).
Proof.
  intros Hn. revert pre cur.
  induction post as [|x post IH]; intros pre cur I; simpl.
  - now rewrite app_nil_r.
  - replace (pre ++ x :: post) with ((pre ++ [x]) ++ post)
      by (now rewrite <- app_assoc).
    apply IH. now apply visit_edge_inv.
Qed.

End Level.

Lemma traverse_levels_extends (levels : nat) (n : string) (st : selection) :
  fresh n st ->
  extends st (traverse_levels all_nodes all_edges levels n st).
Proof.
  revert n st. induction levels as [|below IH]; intros n st Hn; simpl.
  - apply extends_refl.
  - destruct (dict_get n all_nodes) as [record|]; [|apply extends_refl].
    apply loop_done with n.
    apply (visit_edges_inv below IH st n all_edges [] _ Hn).
    apply loop_start.
Qed.

(** Every kept record is the record of the full graph under the same key. *)
Definition from_graph (st : selection) : Prop :=
  forall k v, In (k, v) (filtered_nodes st) -> dict_get k all_nodes = Some v.

Lemma visit_edges_from_graph (recur : string -> selection -> selection)
    (n : string) (es : list edge) (cur : selection) :
  (forall m s, from_graph s -> from_graph (recur m s)) ->
  from_graph cur ->
  from_graph (fold_left (visit_edge recur n) es cur).
Proof.
  intros Hrecur. revert cur.
  induction es as [|x es IHes]; intros cur Hcur; simpl; [exact Hcur|].
  apply IHes. unfold visit_edge.
  destruct (_ && _); [now apply Hrecur|].
  destruct (_ && _); [now apply Hrecur | exact Hcur].
Qed.

Lemma traverse_levels_from_graph (levels : nat) (n : string)
    (st : selection) :
  from_graph st ->
  from_graph (traverse_levels all_nodes all_edges levels n st).
Proof.
  revert n st. induction levels as [|below IH]; intros n st Hst; simpl.
  - exact Hst.
  - destruct (dict_get n all_nodes) as [record|] eqn:Hget; [|exact Hst].
    apply visit_edges_from_graph; [exact IH|].
    intros k v Hin. simpl in Hin. apply dict_set_In in Hin.
    destruct Hin as [[-> ->]|Hin]; [exact Hget | now apply Hst].
Qed.

End TraverseFacts.

(** ** The scoped traversal: the answer as a part of the graph *)

Lemma dict_get_In {V : Type} (k : string) (v : V) (d : dict V) :
  dict_get k d = Some v -> In (k, v) d.
Proof.
  induction d as [|[k' v'] d IH]; simpl; [discriminate|].
  destruct (String.eqb k k') eqn:E.
  - apply String.eqb_eq in E. intros H. inversion H. subst. now left.
  - intros H. right. now apply IH.
Qed.

Lemma keyed_values_ids (d : dict node_record) :
  (forall k v, In (k, v) d -> node_id v = k) ->
  map node_id (dict_values d) = dict_keys d.
Proof.
  induction d as [|[k v] d IH]; intros Hids; simpl; [reflexivity|].
  rewrite (Hids k v) by now left.
  f_equal. apply IH. intros k0 v0 Hin. apply Hids. now right.
Qed.

(** C6, as the specification states it, fails: at depth 1 from [R] the
    answer holds the edge from [R] to [A], and [A] is not among its
    nodes. *)
Lemma returned_edge_leaves_the_node_set :
  dict_mem "R" (nodes (build_graph true vault_detour)) = true
  /\ exists resp,
       generate_graph (graph_request 1 (Some "R")) (VaultTree vault_detour)
       = Response resp
       /\ In {| source := "R"; target := "A"; type := link |} (resp_edges resp)
       /\ ~ In "A" (map node_id (resp_nodes resp)).
Proof.
  split; [reflexivity|]. eexists. split; [reflexivity|]. split.
  - left. reflexivity.
  - simpl. intros [H|[]]. discriminate.
Qed.

(** C6, amended: for every vault, every non-empty root identifier that is a
    node of the full graph and every depth, the scoped traversal returns a
    part of the full graph in which every edge has at least one of its two
    endpoints in the returned node set (the other one may be missing), every
    returned node is a node of the full graph, and no edge occurs more often
    in the returned edge list than in the full edge list. *)
Theorem scoped_answer_is_part_of_graph
    (request : GraphRequest) (w : walk) (r : string) (resp : graph_response) :
  node request = Some r ->
  r <> "" ->
  dict_mem r (nodes (build_graph (include_tags request) w)) = true ->
  generate_graph request (VaultTree w) = Response resp ->
  (forall e, In e (resp_edges resp) ->
             In (source e) (map node_id (resp_nodes resp))
             \/ In (target e) (map node_id (resp_nodes resp)))
  /\ (forall v, In v (resp_nodes resp) ->
                In v (dict_values (nodes (build_graph (include_tags request) w))))
  /\ (forall e, count_occ edge_eq_dec (resp_edges resp) e
                <= count_occ edge_eq_dec
                     (edges (build_graph (include_tags request) w)) e).
Proof.
  intros Hn Hr Hin Hresp.
  unfold generate_graph, filter_graph in Hresp.
  set (g := build_graph (include_tags request) w) in *.
  rewrite (scoped_present _ _ _ Hn Hr Hin) in Hresp.
  set (out := traverse (nodes g) (edges g) r (depth request) empty_selection)
    in *.
  inversion Hresp as [Heq]. clear Hresp Heq. simpl.
  assert (E : extends (edges g) empty_selection out)
    by (apply traverse_levels_extends; reflexivity).
  assert (F : from_graph (nodes g) out)
    by (apply traverse_levels_from_graph; intros k v []).
  destruct (build_graph_well_keyed (include_tags request) w) as [_ Hids].
  fold g in Hids.
  assert (Hkeys : map node_id (dict_values (filtered_nodes out))
                  = dict_keys (filtered_nodes out)).
  { apply keyed_values_ids. intros k v Hkv. apply Hids.
    apply dict_get_In. now apply F. }
  rewrite Hkeys. split; [|split].
  - intros e He. rewrite <- !dict_mem_keys.
    destruct (dict_mem (source e) (filtered_nodes out)) eqn:Ms; [now left|].
    destruct (dict_mem (target e) (filtered_nodes out)) eqn:Mt; [now right|].
    exfalso. pose proof (ext_far _ _ _ E e Ms Mt) as Hcnt. simpl in Hcnt.
    apply (count_occ_In edge_eq_dec) in He. lia.
  - intros v Hv. unfold dict_values in *. apply in_map_iff in Hv.
    destruct Hv as [[k v'] [Hsnd Hkv]]. simpl in Hsnd. subst v'.
    apply in_map_iff. exists (k, v). split; [reflexivity|].
    apply dict_get_In. now apply F.
  - intros e. pose proof (ext_bound _ _ _ E e) as Hb. simpl in Hb. exact Hb.
Qed.

Lemma scoped_answer_is_part_of_graph_witness :
  (forall e,
     In e (resp_edges (respond (filter_graph (graph_request 2 (Some "A"))
                                  (build_graph true vault_abc)))) ->
     In (source e)
        (map node_id
           (resp_nodes (respond (filter_graph (graph_request 2 (Some "A"))
                                   (build_graph true vault_abc)))))
     \/ In (target e)
           (map node_id
              (resp_nodes (respond (filter_graph (graph_request 2 (Some "A"))
                                      (build_graph true vault_abc))))))
  /\ (forall v,
        In v (resp_nodes (respond (filter_graph (graph_request 2 (Some "A"))
                                     (build_graph true vault_abc)))) ->
        In v (dict_values (nodes (build_graph true vault_abc))))
  /\ (forall e,
        count_occ edge_eq_dec
          (resp_edges (respond (filter_graph (graph_request 2 (Some "A"))
                                  (build_graph true vault_abc)))) e
        <= count_occ edge_eq_dec (edges (build_graph true vault_abc)) e).
Proof.
  apply (scoped_answer_is_part_of_graph
           (graph_request 2 (Some "A")) vault_abc "A").
  - reflexivity.
  - discriminate.
  - reflexivity.
  - reflexivity.
Defined.

(** ** The stable sort of the results *)

Lemma insert_result_perm (x : search_result) (l : list search_result) :
  Permutation (insert_result x l) (x :: l).
Proof.
  induction l as [|y l IH]; simpl; [reflexivity|].
  destruct (matches y <=? matches x); [reflexivity|].
  rewrite IH. apply perm_swap.
Qed.

Lemma sort_by_matches_perm (l : list search_result) :
  Permutation (sort_by_matches l) l.
Proof.
  induction l as [|x l IH]; simpl; [reflexivity|].
  rewrite insert_result_perm. now constructor.
Qed.

Lemma insert_result_sorted (x : search_result) (l : list search_result) :
  StronglySorted no_fewer l -> StronglySorted no_fewer (insert_result x l).
Proof.
  induction l as [|y l IH]; intros Hs; simpl.
  - constructor; [constructor | constructor].
  - inversion Hs as [|? ? Hl Hy]; subst.
    destruct (Nat.leb_spec (matches y) (matches x)) as [Hle|Hgt].
    + constructor; [exact Hs|]. constructor; [exact Hle|].
      rewrite Forall_forall in *. intros z Hz.
      unfold no_fewer in *. specialize (Hy z Hz). lia.
    + constructor; [now apply IH|].
      rewrite Forall_forall in *. intros z Hz.
      apply (Permutation_in _ (insert_result_perm x l)) in Hz.
      destruct Hz as [<-|Hz]; [unfold no_fewer; lia | now apply Hy].
Qed.

Lemma sort_by_matches_sorted (l : list search_result) :
  StronglySorted no_fewer (sort_by_matches l).
Proof.
  induction l as [|x l IH]; simpl; [constructor|].
  now apply insert_result_sorted.
Qed.

(** Stability: a result goes in front of those with as many matches that
    were found after it. *)
Lemma insert_result_stable (c : nat) (x : search_result)
    (l : list search_result) :
  with_matches c (insert_result x l) = with_matches c (x :: l).
Proof.
  unfold with_matches. induction l as [|y l IH]; simpl; [reflexivity|].
  destruct (Nat.leb_spec (matches y) (matches x)) as [Hle|Hgt];
    [reflexivity|].
  simpl. rewrite IH. simpl.
  destruct (Nat.eqb_spec (matches x) c) as [Hx|Hx];
    destruct (Nat.eqb_spec (matches y) c) as [Hy|Hy];
    try reflexivity; lia.
Qed.

Lemma sort_by_matches_stable (c : nat) (l : list search_result) :
  with_matches c (sort_by_matches l) = with_matches c l.
Proof.
  induction l as [|x l IH]; simpl; [reflexivity|].
  rewrite insert_result_stable. unfold with_matches in *. simpl.
  now rewrite IH.
Qed.

(** A sorted list is fixed by its runs of equal match counts: whatever
    stable sort runs, the list it leaves is [sort_by_matches]'s. *)
Lemma sorted_runs_fix_the_list (l1 l2 : list search_result) :
  StronglySorted no_fewer l1 ->
  StronglySorted no_fewer l2 ->
  (forall c, with_matches c l1 = with_matches c l2) ->
  l1 = l2.
Proof.
  assert (Hhead : forall a t l,
             StronglySorted no_fewer (a :: t) ->
             (forall c, with_matches c (a :: t) = with_matches c l) ->
             forall b, In b l -> matches b <= matches a).
  { intros a t l Hs Hruns b Hb.
    assert (Hin : In b (with_matches (matches b) (a :: t))).
    { rewrite Hruns. apply filter_In. split; [exact Hb|].
      apply Nat.eqb_refl. }
    apply filter_In in Hin. destruct Hin as [[<-|Hin] _]; [lia|].
    inversion Hs as [|? ? _ Hall]; subst.
    rewrite Forall_forall in Hall. exact (Hall b Hin). }
  revert l2. induction l1 as [|a t1 IH]; intros l2 S1 S2 Hruns.
  - destruct l2 as [|b t2]; [reflexivity|].
    specialize (Hruns (matches b)). unfold with_matches in Hruns.
    simpl in Hruns. rewrite Nat.eqb_refl in Hruns. discriminate.
  - destruct l2 as [|b t2].
    + specialize (Hruns (matches a)). unfold with_matches in Hruns.
      simpl in Hruns. rewrite Nat.eqb_refl in Hruns. discriminate.
    + assert (Hab : matches b <= matches a)
        by (apply (Hhead a t1 (b :: t2) S1 Hruns); now left).
      assert (Hba : matches a <= matches b).
      { apply (Hhead b t2 (a :: t1) S2); [|now left].
        intros c. symmetry. apply Hruns. }
      assert (Heq : a = b /\ forall c, with_matches c t1 = with_matches c t2).
      { pose proof (Hruns (matches a)) as H0. unfold with_matches in *.
        simpl in H0. rewrite Nat.eqb_refl in H0.
        replace (Nat.eqb (matches b) (matches a)) with true in H0
          by (symmetry; apply Nat.eqb_eq; lia).
        inversion H0 as [[Hhd Htl]]. split; [reflexivity|].
        intros c. specialize (Hruns c). simpl in Hruns. subst b.
        destruct (Nat.eqb (matches a) c); [now inversion Hruns | exact Hruns]. }
      destruct Heq as [<- Htails]. f_equal.
      inversion S1; inversion S2; subst. now apply IH.
Qed.

Lemma slice_to_prefix {A : Type} (stop : Z) (l : list A) :
  exists dropped, l = slice_to stop l ++ dropped.
Proof.
  unfold slice_to. destruct (0 <=? stop)%Z.
  - exists (skipn (Z.to_nat stop) l). now rewrite firstn_skipn.
  - exists (skipn (List.length l - Z.to_nat (- stop)) l).
    now rewrite firstn_skipn.
Qed.

Lemma slice_to_length {A : Type} (stop : Z) (l : list A) :
  (0 <= stop)%Z ->
  List.length (slice_to stop l) = Nat.min (Z.to_nat stop) (List.length l).
Proof.
  intros Hstop. unfold slice_to.
  destruct (Z.leb_spec 0 stop); [apply length_firstn | lia].
Qed.

Lemma sorted_app_no_fewer (front back : list search_result) :
  StronglySorted no_fewer (front ++ back) ->
  forall a b, In a front -> In b back -> matches b <= matches a.
Proof.
  induction front as [|x front IH]; intros Hs a b Ha Hb; [destruct Ha|].
  simpl in Hs. inversion Hs as [|? ? Hrest Hall]; subst.
  destruct Ha as [<-|Ha].
  - rewrite Forall_forall in Hall. apply Hall. apply in_or_app. now right.
  - now apply IH.
Qed.

Lemma sorted_app_front (front back : list search_result) :
  StronglySorted no_fewer (front ++ back) -> StronglySorted no_fewer front.
Proof.
  induction front as [|x front IH]; intros Hs; [constructor|].
  simpl in Hs. inversion Hs as [|? ? Hrest Hall]; subst.
  constructor; [now apply IH|].
  rewrite Forall_forall in *. intros z Hz. apply Hall. apply in_or_app.
  now left.
Qed.

(** ** The scan of [search_notes] *)

Section ScanFacts.

Variable re : regex_engine.
Variable request : SearchRequest.

(** The file [f] of the directory [root] is reported as [r]: it is loaded
    as a note, and the match count of [r] is what [re.findall] counts for
    the query in its raw text. *)
Definition reports (root : string) (f : vault_file) (r : search_result)
    : Prop :=
  exists src,
    loaded f = Some src
    /\ re_findall_count re (query request) (content src) = Some (matches r)
    /\ r = result_of root (file_name f) src (matches r).

Lemma search_file_cases (root : string) (acc : list search_result)
    (f : vault_file) :
  search_file re request root acc f = acc
  \/ exists r, search_file re request root acc f = acc ++ [r]
               /\ reports root f r.
Proof.
  unfold search_file.
  destruct (PyStr.endswith (file_name f) ".md"); [|now left].
  destruct (loaded f) as [src|] eqn:Hl; [|now left].
  destruct (mode_matches re request (file_name f) src) as [[|]|]; auto.
  destruct (re_findall_count re (query request) (content src)) as [n|] eqn:Hc;
    auto.
  right. eexists. split; [reflexivity|]. exists src. simpl. auto.
Qed.

Lemma search_file_keeps (root : string) (acc : list search_result)
    (f : vault_file) (r : search_result) :
  In r acc -> In r (search_file re request root acc f).
Proof.
  intros Hin. destruct (search_file_cases root acc f) as [->|[x [-> _]]].
  - exact Hin.
  - apply in_or_app. now left.
Qed.

Lemma search_files_keep (root : string) (files : list vault_file)
    (acc : list search_result) (r : search_result) :
  In r acc -> In r (fold_left (search_file re request root) files acc).
Proof.
  revert acc. induction files as [|f files IH]; intros acc Hin; simpl.
  - exact Hin.
  - apply IH. now apply search_file_keeps.
Qed.

Lemma search_dirs_keep (w : walk) (acc : list search_result)
    (r : search_result) :
  In r acc -> In r (fold_left (search_dir re request) w acc).
Proof.
  revert acc. induction w as [|d w IH]; intros acc Hin; simpl.
  - exact Hin.
  - apply IH. unfold search_dir.
    destruct (is_excluded_path (fst d)); [exact Hin|].
    destruct (outside_folder request (fst d)); [exact Hin|].
    now apply search_files_keep.
Qed.

Lemma search_files_origin (root : string) (files : list vault_file)
    (acc : list search_result) (r : search_result) :
  In r (fold_left (search_file re request root) files acc) ->
  In r acc \/ exists f, In f files /\ reports root f r.
Proof.
  revert acc. induction files as [|f files IH]; intros acc Hin; simpl in Hin.
  - now left.
  - apply IH in Hin. destruct Hin as [Hin|[f' [Hf' Hr]]].
    + destruct (search_file_cases root acc f) as [Heq|[x [Heq Hx]]];
        rewrite Heq in Hin.
      * now left.
      * apply in_app_or in Hin. destruct Hin as [Hin|[<-|[]]].
        -- now left.
        -- right. exists f. split; [now left | exact Hx].
    + right. exists f'. split; [now right | exact Hr].
Qed.

Lemma search_dirs_origin (w : walk) (acc : list search_result)
    (r : search_result) :
  In r (fold_left (search_dir re request) w acc) ->
  In r acc
  \/ exists root files f,
       In (root, files) w /\ In f files /\ reports root f r.
Proof.
  revert acc. induction w as [|d w IH]; intros acc Hin; simpl in Hin.
  - now left.
  - apply IH in Hin. destruct Hin as [Hin|[root [files [f [Hd [Hf Hr]]]]]].
    + unfold search_dir in Hin.
      destruct (is_excluded_path (fst d)); [now left|].
      destruct (outside_folder request (fst d)); [now left|].
      apply search_files_origin in Hin.
      destruct Hin as [Hin|[f [Hf Hr]]]; [now left|].
      right. exists (fst d), (snd d), f.
      split; [left; now destruct d | auto].
    + right. exists root, files, f. split; [now right | auto].
Qed.

Lemma search_file_finds (root : string) (acc : list search_result)
    (f : vault_file) (src : note_source) (n : nat) :
  PyStr.endswith (file_name f) ".md" = true ->
  loaded f = Some src ->
  mode_matches re request (file_name f) src = Some true ->
  re_findall_count re (query request) (content src) = Some n ->
  In (result_of root (file_name f) src n) (search_file re request root acc f).
Proof.
  intros Hmd Hl Hm Hc. unfold search_file. rewrite Hmd, Hl, Hm, Hc.
  apply in_or_app. right. now left.
Qed.

Lemma search_files_find (root : string) (files : list vault_file)
    (acc : list search_result) (f : vault_file) (src : note_source)
    (n : nat) :
  In f files ->
  PyStr.endswith (file_name f) ".md" = true ->
  loaded f = Some src ->
  mode_matches re request (file_name f) src = Some true ->
  re_findall_count re (query request) (content src) = Some n ->
  In (result_of root (file_name f) src n)
     (fold_left (search_file re request root) files acc).
Proof.
  intros Hf Hmd Hl Hm Hc. revert acc.
  induction files as [|f0 files IH]; intros acc; [destruct Hf|].
  simpl. destruct Hf as [->|Hf].
  - apply search_files_keep. now apply search_file_finds.
  - now apply IH.
Qed.

Lemma search_dirs_find (w : walk) (acc : list search_result)
    (root : string) (files : list vault_file) (f : vault_file)
    (src : note_source) (n : nat) :
  In (root, files) w ->
  is_excluded_path root = false ->
  outside_folder request root = false ->
  In f files ->
  PyStr.endswith (file_name f) ".md" = true ->
  loaded f = Some src ->
  mode_matches re request (file_name f) src = Some true ->
  re_findall_count re (query request) (content src) = Some n ->
  In (result_of root (file_name f) src n)
     (fold_left (search_dir re request) w acc).
Proof.
  intros Hd Hex Hfo Hf Hmd Hl Hm Hc. revert acc.
  induction w as [|d w IH]; intros acc; [destruct Hd|].
  simpl. destruct Hd as [->|Hd].
  - apply search_dirs_keep. unfold search_dir. simpl. rewrite Hex, Hfo.
    now apply search_files_find.
  - now apply IH.
Qed.

(** In a mode that the chain does not know, no file is a match. *)
Lemma unknown_mode_no_match (file : string) (src : note_source) :
  ~ In (search_type request) known_modes ->
  mode_matches re request file src = Some false.
Proof.
  intros Hmode. unfold mode_matches, known_modes in *. simpl in Hmode.
  destruct (String.eqb_spec (search_type request) "content");
    [intuition congruence|].
  destruct (String.eqb_spec (search_type request) "title");
    [intuition congruence|].
  destruct (String.eqb_spec (search_type request) "tags");
    [intuition congruence|].
  destruct (String.eqb_spec (search_type request) "backlinks");
    [intuition congruence|].
  reflexivity.
Qed.

Lemma unknown_mode_scan_empty (w : walk) :
  ~ In (search_type request) known_modes ->
  scan_results re request w = [].
Proof.
  intros Hmode. unfold scan_results. generalize (@nil search_result).
  assert (Hfile : forall root f acc, search_file re request root acc f = acc).
  { intros root f acc. unfold search_file.
    destruct (PyStr.endswith (file_name f) ".md"); [|reflexivity].
    destruct (loaded f) as [src|]; [|reflexivity].
    now rewrite unknown_mode_no_match. }
  assert (Hfiles : forall root files acc,
             fold_left (search_file re request root) files acc = acc).
  { intros root files. induction files as [|f files IH]; intros acc; simpl.
    - reflexivity.
    - now rewrite Hfile. }
  induction w as [|d w IH]; intros acc; simpl; [reflexivity|].
  rewrite IH. unfold search_dir.
  destruct (is_excluded_path (fst d)); [reflexivity|].
  destruct (outside_folder request (fst d)); [reflexivity|].
  apply Hfiles.
Qed.

End ScanFacts.

(** ** The ranked search: the claims *)

Lemma slice_to_nil {A : Type} (stop : Z) : slice_to stop (@nil A) = [].
Proof. unfold slice_to. destruct (0 <=? stop)%Z; apply firstn_nil. Qed.

Lemma slice_to_all {A : Type} (stop : Z) (l : list A) :
  (Z.of_nat (List.length l) <= stop)%Z -> slice_to stop l = l.
Proof.
  intros Hall. unfold slice_to.
  destruct (Z.leb_spec 0 stop); [|lia]. apply firstn_all2. lia.
Qed.

Lemma slice_to_In {A : Type} (stop : Z) (l : list A) (x : A) :
  In x (slice_to stop l) -> In x l.
Proof.
  destruct (slice_to_prefix stop l) as [dropped Heq]. intros Hin.
  rewrite Heq. apply in_or_app. now left.
Qed.

(** C5, as the specification states it, fails: the mode [fuzzy] is not a
    known one, and the search answers as for a query that nothing matches,
    not with an error. *)
Lemma unknown_mode_answer_is_no_error :
  ~ In "fuzzy" known_modes
  /\ search_notes plain_engine (search_request "links" "fuzzy")
                  (VaultTree vault_abc)
     = Response {| resp_query := "links"; count := 0; results := [] |}
  /\ forall status detail,
       search_notes plain_engine (search_request "links" "fuzzy")
                    (VaultTree vault_abc)
       <> HTTPException status detail.
Proof.
  split; [|split].
  - simpl. intuition discriminate.
  - reflexivity.
  - intros status detail. discriminate.
Qed.

(** C5, amended: for every search request whose search mode is not one of
    the known modes (content, title, tags, backlinks), the search reports no
    error: no file is a match, and the answer is the ordinary one with the
    query, the count 0 and the empty result list. *)
Theorem unknown_mode_returns_empty_list
    (re : regex_engine) (request : SearchRequest) (w : walk) :
  ~ In (search_type request) known_modes ->
  search_notes re request (VaultTree w)
  = Response {| resp_query := query request; count := 0; results := [] |}.
Proof.
  intros Hmode. unfold search_notes.
  rewrite (unknown_mode_scan_empty re request w Hmode). simpl.
  now rewrite slice_to_nil.
Qed.

Lemma unknown_mode_returns_empty_list_witness :
  search_notes plain_engine (search_request "links" "fuzzy")
               (VaultTree vault_abc)
  = Response {| resp_query := "links"; count := 0; results := [] |}.
Proof.
  apply (unknown_mode_returns_empty_list
           plain_engine (search_request "links" "fuzzy") vault_abc).
  simpl. intuition discriminate.
Defined.

(** C8: for every search request and every vault, the answer holds the
    first results of the list of all matches sorted by non-increasing match
    count, cut after the sort: the returned list is sorted, results with
    equal match counts keep their scan order, and every result that is cut
    off has no more matches than any result that is returned. *)
Theorem results_sorted_stably_then_cut
    (re : regex_engine) (request : SearchRequest) (w : walk) :
  exists returned dropped,
    search_notes re request (VaultTree w)
    = Response {| resp_query := query request;
                  count := List.length (returned ++ dropped);
                  results := returned |}
    /\ Permutation (returned ++ dropped) (scan_results re request w)
    /\ StronglySorted no_fewer (returned ++ dropped)
    /\ StronglySorted no_fewer returned
    /\ (forall c, with_matches c returned ++ with_matches c dropped
                  = with_matches c (scan_results re request w))
    /\ (forall a b, In a returned -> In b dropped -> matches b <= matches a)
    /\ ((0 <= limit request)%Z ->
        List.length returned
        = Nat.min (Z.to_nat (limit request))
                  (List.length (scan_results re request w))).
Proof.
  set (found := scan_results re request w).
  destruct (slice_to_prefix (limit request) (sort_by_matches found))
    as [dropped Hcut].
  exists (slice_to (limit request) (sort_by_matches found)), dropped.
  rewrite <- Hcut.
  assert (Hsorted := sort_by_matches_sorted found).
  split; [reflexivity|].
  split; [apply sort_by_matches_perm|].
  split; [exact Hsorted|].
  split; [rewrite Hcut in Hsorted; now apply sorted_app_front in Hsorted|].
  split.
  { intros c. unfold with_matches. rewrite <- filter_app, <- Hcut.
    apply sort_by_matches_stable. }
  split.
  { rewrite Hcut in Hsorted. now apply sorted_app_no_fewer. }
  intros Hlimit. rewrite slice_to_length by exact Hlimit.
  now rewrite (Permutation_length (sort_by_matches_perm found)).
Qed.

(** C10: in every search mode the match count of a returned note is what
    [re.findall] counts for the query, read as a pattern and without regard
    to case, in the raw text of the note: the mode plays no part in it.  So
    a note that its mode matches while the pattern count of its text is 0
    is found and, unless cut off by the limit, returned with the match count
    0; and in the answer a result with match count 0 is followed by such
    results only. *)
Theorem match_count_is_pattern_count_in_every_mode
    (re : regex_engine) (request : SearchRequest) (w : walk) :
  (forall resp r,
     search_notes re request (VaultTree w) = Response resp ->
     In r (results resp) ->
     exists root files f src,
       In (root, files) w /\ In f files /\ loaded f = Some src
       /\ title r = stem (file_name f)
       /\ re_findall_count re (query request) (content src)
          = Some (matches r))
  /\ (forall root files f src,
        In (root, files) w ->
        is_excluded_path root = false ->
        outside_folder request root = false ->
        In f files ->
        PyStr.endswith (file_name f) ".md" = true ->
        loaded f = Some src ->
        mode_matches re request (file_name f) src = Some true ->
        re_findall_count re (query request) (content src) = Some 0 ->
        exists resp,
          search_notes re request (VaultTree w) = Response resp
          /\ ((Z.of_nat (count resp) <= limit request)%Z ->
              In (result_of root (file_name f) src 0) (results resp)))
  /\ (forall resp front r back,
        search_notes re request (VaultTree w) = Response resp ->
        results resp = front ++ r :: back ->
        matches r = 0 ->
        forall r', In r' back -> matches r' = 0).
Proof.
  split; [|split].
  - intros resp r Hresp Hin. inversion Hresp as [Heq]. subst resp.
    simpl in Hin. apply slice_to_In in Hin.
    apply (Permutation_in _ (sort_by_matches_perm _)) in Hin.
    apply search_dirs_origin in Hin.
    destruct Hin as [[]|[root [files [f [Hd [Hf [src [Hl [Hc Hr]]]]]]]]].
    exists root, files, f, src. repeat split; auto.
    rewrite Hr. reflexivity.
  - intros root files f src Hd Hex Hfo Hf Hmd Hl Hm Hc.
    eexists. split; [reflexivity|]. simpl. intros Hall.
    rewrite slice_to_all by exact Hall.
    apply (Permutation_in _ (Permutation_sym (sort_by_matches_perm _))).
    now apply search_dirs_find with files.
  - intros resp front r back Hresp Hsplit Hzero r' Hin.
    inversion Hresp as [Heq]. subst resp. simpl in Hsplit.
    destruct (slice_to_prefix (limit request)
                (sort_by_matches (scan_results re request w)))
      as [dropped Hcut].
    pose proof (sort_by_matches_sorted (scan_results re request w)) as Hs.
    rewrite Hcut, Hsplit in Hs. apply sorted_app_front in Hs.
    replace (front ++ r :: back) with ((front ++ [r]) ++ back) in Hs
      by (now rewrite <- app_assoc).
    assert (Hle : matches r' <= matches r).
    { apply (sorted_app_no_fewer _ _ Hs); [|exact Hin].
      apply in_or_app. right. now left. }
    lia.
Qed.

(** A search by title: both notes match the mode; the count looks at the
    text, so the note found first comes last, with no match at all. *)
Example title_search_counts_text :
  search_notes plain_engine (search_request "milk" "title")
               (VaultTree vault_milk)
  = Response
      {| resp_query := "milk";
         count := 2;
         results :=
           [{| path := "/vault/milkshake.md"; title := "milkshake";
               preview := "milk and more milk"; result_tags := [];
               modified := ""; matches := 2 |};
            {| path := "/vault/milk.md"; title := "milk";
               preview := "buy some"; result_tags := [];
               modified := ""; matches := 0 |}] |}.
Proof. reflexivity. Qed.

(** The specification's search example: [links] in content mode finds the
    note [B] alone, with one match. *)
Example content_search_abc :
  search_notes plain_engine (search_request "links" "content")
               (VaultTree vault_abc)
  = Response
      {| resp_query := "links";
         count := 1;
         results :=
           [{| path := "/vault/B.md"; title := "B"; preview := "no links";
               result_tags := ["x"]; modified := ""; matches := 1 |}] |}.
Proof. reflexivity. Qed.

(** C4: the code does not keep the claim.  The note holds the query [v1.0]
    once, and the content mode finds it by that literal test; the count is
    taken with [re.findall], where the dot of the query stands for any
    character, so that [v100] counts too: 2 matches are reported for 1
    occurrence. *)
Theorem content_count_reads_query_as_pattern :
  PyStr.contains (PyStr.lower "v1.0") (PyStr.lower "v1.0 and v100") = true
  /\ spec_literal_occurrences "v1.0" "v1.0 and v100" = 1
  /\ search_notes plain_engine (search_request "v1.0" "content")
                  (VaultTree vault_release)
     = Response
         {| resp_query := "v1.0";
            count := 1;
            results :=
              [{| path := "/vault/release.md"; title := "release";
                  preview := "v1.0 and v100"; result_tags := [];
                  modified := ""; matches := 2 |}] |}.
Proof. repeat split; reflexivity. Qed.

(** ** The graph builder: where nodes and edges come from *)

Lemma fold_left_skip {A B : Type} (step : A -> B -> A) (keep : B -> bool)
    (l : list B) (a : A) :
  (forall a x, keep x = false -> step a x = a) ->
  fold_left step (filter keep l) a = fold_left step l a.
Proof.
  intros Hskip. revert a. induction l as [|x l IH]; intros a; simpl.
  - reflexivity.
  - destruct (keep x) eqn:E; simpl.
    + apply IH.
    + rewrite (Hskip a x E). apply IH.
Qed.

Lemma add_file_skips (with_tags : bool) (root : string) (g : graph)
    (f : vault_file) :
  scannable f = false -> add_file with_tags root g f = g.
Proof.
  unfold scannable, add_file.
  destruct (PyStr.endswith (file_name f) ".md"); [|reflexivity].
  destruct (loaded f); [discriminate | reflexivity].
Qed.

(** X1.  A file that is not a [.md] file, a file that cannot be read or
    parsed, and a directory of the excluded vault leave no trace: the graph
    is the graph of the walk without them. *)
Theorem build_graph_ignores_skipped (with_tags : bool) (w : walk) :
  build_graph with_tags (scannable_walk w) = build_graph with_tags w.
Proof.
  unfold build_graph, scannable_walk. generalize empty_graph.
  induction w as [|d w IH]; intros g; simpl; [reflexivity|].
  destruct (is_excluded_path (fst d)) eqn:Hex; simpl.
  - rewrite IH. f_equal. unfold add_dir. now rewrite Hex.
  - rewrite IH. f_equal. unfold add_dir. simpl. rewrite Hex.
    apply fold_left_skip. intros a x. apply add_file_skips.
Qed.

(** Kept keys stay through the steps of the builder. *)
Lemma add_tags_keep_key (name k : string) (ts : list string) (g : graph) :
  dict_mem k (nodes g) = true ->
  dict_mem k (nodes (fold_left (add_tag name) ts g)) = true.
Proof.
  revert g. induction ts as [|t ts IH]; intros g Hk; simpl; [exact Hk|].
  apply IH. rewrite add_tag_nodes.
  destruct (dict_mem t (nodes g)); [exact Hk|].
  rewrite dict_mem_set, Hk. apply orb_true_r.
Qed.

Lemma add_file_keeps_key (with_tags : bool) (root k : string) (g : graph)
    (f : vault_file) :
  dict_mem k (nodes g) = true ->
  dict_mem k (nodes (add_file with_tags root g f)) = true.
Proof.
  intros Hk. unfold add_file.
  destruct (PyStr.endswith (file_name f) ".md"); [|exact Hk].
  destruct (loaded f) as [src|]; [|exact Hk].
  assert (H1 : forall v, dict_mem k (dict_set (stem (file_name f)) v (nodes g))
                         = true)
    by (intros v; rewrite dict_mem_set, Hk; apply orb_true_r).
  destruct with_tags; [apply add_tags_keep_key|]; simpl; apply H1.
Qed.

(** What holds of a graph and is kept by every step of the builder holds of
    the built graph. *)
Lemma build_graph_invariant (with_tags : bool) (P : graph -> Prop) :
  P empty_graph ->
  (forall root g f, P g -> P (add_file with_tags root g f)) ->
  forall w, P (build_graph with_tags w).
Proof.
  intros Hempty Hstep w. unfold build_graph. generalize empty_graph Hempty.
  induction w as [|d w IH]; intros g Hg; simpl; [exact Hg|].
  apply IH. unfold add_dir. destruct (is_excluded_path (fst d)); [exact Hg|].
  generalize g Hg. induction (snd d) as [|f fs IHf]; intros g0 Hg0; simpl.
  - exact Hg0.
  - apply IHf. now apply Hstep.
Qed.

(** The source of every edge holds a note, and the target of every [tag]
    edge is a key of the graph. *)
Definition edges_anchored (g : graph) : Prop :=
  forall e, In e (edges g) ->
    holds_note (source e) (nodes g)
    /\ (is_tag_edge e = true -> dict_mem (target e) (nodes g) = true).

Lemma add_tag_anchored (name : string) (g : graph) (t : string) :
  holds_note name (nodes g) -> edges_anchored g ->
  edges_anchored (add_tag name g t).
Proof.
  intros Hname Hg e Hin.
  assert (Hnote : forall n, holds_note n (nodes g) ->
                            holds_note n (nodes (add_tag name g t))).
  { intros n Hn. rewrite add_tag_nodes.
    destruct (dict_mem t (nodes g)) eqn:E; [exact Hn|].
    now apply holds_note_set_other. }
  assert (Hkey : forall k, dict_mem k (nodes g) = true ->
                           dict_mem k (nodes (add_tag name g t)) = true).
  { intros k Hk. rewrite add_tag_nodes.
    destruct (dict_mem t (nodes g)); [exact Hk|].
    rewrite dict_mem_set, Hk. apply orb_true_r. }
  simpl in Hin. apply in_app_or in Hin. destruct Hin as [Hin|[<-|[]]].
  - destruct (Hg e Hin) as [Hs Ht]. split; [now apply Hnote|].
    intros Htag. apply Hkey. now apply Ht.
  - cbn [source target]. split; [now apply Hnote|]. intros _.
    rewrite add_tag_nodes.
    destruct (dict_mem t (nodes g)) eqn:E; [exact E|].
    rewrite dict_mem_set, String.eqb_refl. reflexivity.
Qed.

Lemma add_tags_anchored (name : string) (ts : list string) (g : graph) :
  holds_note name (nodes g) -> edges_anchored g ->
  edges_anchored (fold_left (add_tag name) ts g).
Proof.
  revert g. induction ts as [|t ts IH]; intros g Hname Hg; simpl; [exact Hg|].
  apply IH.
  - apply (add_tags_holds_note name name [t] g Hname).
  - now apply add_tag_anchored.
Qed.

Lemma add_file_anchored (with_tags : bool) (root : string) (g : graph)
    (f : vault_file) :
  edges_anchored g -> edges_anchored (add_file with_tags root g f).
Proof.
  intros Hg. unfold add_file.
  destruct (PyStr.endswith (file_name f) ".md"); [|exact Hg].
  destruct (loaded f) as [src|]; [|exact Hg].
  set (name := stem (file_name f)).
  set (record := NoteNode name name (path_join root (file_name f))
                          (meta_tags src) (String.length (content src))).
  set (g1 := {| nodes := dict_set name record (nodes g);
                edges := edges g ++ link_edges name (content src) |}).
  assert (Hname : holds_note name (nodes g1)).
  { exists record. split; [apply dict_get_set_same | reflexivity]. }
  assert (Hg1 : edges_anchored g1).
  { intros e Hin. simpl in Hin. apply in_app_or in Hin.
    destruct Hin as [Hin|Hin].
    - destruct (Hg e Hin) as [Hs Ht]. split.
      + now apply holds_note_set_note.
      + intros Htag. simpl. rewrite dict_mem_set, (Ht Htag).
        apply orb_true_r.
    - unfold link_edges in Hin. apply in_map_iff in Hin.
      destruct Hin as [l [<- _]]. simpl. split; [exact Hname|].
      discriminate. }
  destruct with_tags; [|exact Hg1]. now apply add_tags_anchored.
Qed.

(** X2.  In the built graph every edge starts at a note: under the source
    identifier of every edge, [link] or [tag], the graph holds a note
    record.  The target of a [tag] edge is always a node of the graph; the
    target of a [link] edge need not be. *)
Theorem edges_start_at_notes (with_tags : bool) (w : walk) :
  forall e, In e (edges (build_graph with_tags w)) ->
    (exists v, dict_get (source e) (nodes (build_graph with_tags w)) = Some v
               /\ is_note v = true)
    /\ (type e = tag ->
        dict_mem (target e) (nodes (build_graph with_tags w)) = true).
Proof.
  assert (H : edges_anchored (build_graph with_tags w)).
  { apply build_graph_invariant.
    - intros e [].
    - intros root g f. apply add_file_anchored. }
  intros e Hin. destruct (H e Hin) as [Hs Ht]. split; [exact Hs|].
  intros Htype. apply Ht. unfold is_tag_edge, is_link. now rewrite Htype.
Qed.

(** A [link] edge may point at nothing: the vault of the detour without the
    note [X]. *)
Example link_edge_may_dangle :
  In {| source := "B"; target := "X"; type := link |}
     (edges (build_graph true [("/vault", [note "B.md" "[[X]]" []])]))
  /\ dict_mem "X" (nodes (build_graph true [("/vault", [note "B.md" "[[X]]" []])]))
     = false.
Proof. split; [left|]; reflexivity. Qed.

(** ** The graph builder: tags, records and statistics *)

Lemma edges_start_at_notes_witness :
  (exists v, dict_get "A" (nodes (build_graph true vault_abc)) = Some v
             /\ is_note v = true)
  /\ (tag = tag -> dict_mem "x" (nodes (build_graph true vault_abc)) = true).
Proof.
  apply (edges_start_at_notes true vault_abc
           {| source := "A"; target := "x"; type := tag |}).
  right. right. left. reflexivity.
Defined.

Lemma tag_edge_not_link (l : list edge) :
  (forall e, In e l -> type e = link) -> filter is_tag_edge l = [].
Proof.
  induction l as [|e l IH]; intros Hl; simpl; [reflexivity|].
  unfold is_tag_edge at 1, is_link. rewrite (Hl e) by now left. simpl.
  apply IH. intros e' He'. apply Hl. now right.
Qed.

Lemma add_tags_tag_edges (name : string) (ts : list string) (g : graph) :
  filter is_tag_edge (edges (fold_left (add_tag name) ts g))
  = filter is_tag_edge (edges g)
    ++ map (fun t => {| source := name; target := t; type := tag |}) ts.
Proof.
  revert g. induction ts as [|t ts IH]; intros g; simpl.
  - now rewrite app_nil_r.
  - rewrite IH. simpl. rewrite filter_app. simpl. now rewrite <- app_assoc.
Qed.

Lemma add_file_tag_edges (with_tags : bool) (root : string) (g : graph)
    (f : vault_file) :
  filter is_tag_edge (edges (add_file with_tags root g f))
  = filter is_tag_edge (edges g)
    ++ (if with_tags then flat_map tag_edges (scanned_in [f]) else []).
Proof.
  assert (Hlinks : forall name text,
             filter is_tag_edge (link_edges name text) = []).
  { intros name text. apply tag_edge_not_link. intros e He.
    unfold link_edges in He. apply in_map_iff in He.
    now destruct He as [l [<- _]]. }
  unfold scanned_in, add_file. simpl.
  destruct (PyStr.endswith (file_name f) ".md");
    [|destruct with_tags; now rewrite app_nil_r].
  destruct (loaded f) as [src|];
    [|destruct with_tags; now rewrite app_nil_r].
  destruct with_tags; simpl.
  - rewrite add_tags_tag_edges. simpl.
    rewrite filter_app, Hlinks, !app_nil_r. reflexivity.
  - now rewrite filter_app, Hlinks, !app_nil_r.
Qed.

Lemma build_graph_tag_edges (with_tags : bool) (w : walk) :
  filter is_tag_edge (edges (build_graph with_tags w))
  = if with_tags then flat_map tag_edges (scanned_files w) else [].
Proof.
  assert (Hfiles : forall root files g,
             filter is_tag_edge
               (edges (fold_left (add_file with_tags root) files g))
             = filter is_tag_edge (edges g)
               ++ (if with_tags then flat_map tag_edges (scanned_in files)
                   else [])).
  { intros root files. induction files as [|f files IH]; intros g.
    - simpl. destruct with_tags; now rewrite app_nil_r.
    - simpl fold_left. rewrite IH, add_file_tag_edges.
      rewrite (scanned_in_cons f files).
      destruct with_tags.
      + now rewrite flat_map_app, app_assoc.
      + now rewrite !app_nil_r. }
  assert (Hdirs : forall dirs g,
             filter is_tag_edge (edges (fold_left (add_dir with_tags) dirs g))
             = filter is_tag_edge (edges g)
               ++ (if with_tags then flat_map tag_edges (scanned_files dirs)
                   else [])).
  { intros dirs. induction dirs as [|d dirs IH]; intros g.
    - simpl. destruct with_tags; now rewrite app_nil_r.
    - simpl fold_left. rewrite IH. unfold add_dir, scanned_files. simpl.
      destruct (is_excluded_path (fst d)); [reflexivity|].
      rewrite Hfiles. destruct with_tags.
      + now rewrite flat_map_app, app_assoc.
      + now rewrite !app_nil_r. }
  unfold build_graph. now rewrite Hdirs.
Qed.

(** X3.  With tag nodes requested, the [tag] edges of the built graph are,
    in scan order, one per entry of the tag list of every scanned note,
    repeated entries included.  Without them the graph has no [tag] edge and
    no tag node. *)
Theorem tag_edges_follow_tag_lists (w : walk) :
  filter is_tag_edge (edges (build_graph true w))
  = flat_map (fun p => map (fun t => {| source := stem (fst p); target := t;
                                        type := tag |})
                           (meta_tags (snd p)))
             (scanned_files w)
  /\ filter is_tag_edge (edges (build_graph false w)) = []
  /\ filter is_tag (dict_values (nodes (build_graph false w))) = [].
Proof.
  split; [apply (build_graph_tag_edges true)|].
  split; [apply (build_graph_tag_edges false)|].
  assert (H : forall k v, In (k, v) (nodes (build_graph false w)) ->
                          is_note v = true).
  { apply (build_graph_invariant false
             (fun g => forall k v, In (k, v) (nodes g) -> is_note v = true)).
    - intros k v [].
    - intros root g f Hg k v Hin. unfold add_file in Hin.
      destruct (PyStr.endswith (file_name f) ".md"); [|now apply (Hg k)].
      destruct (loaded f) as [src|]; [|now apply (Hg k)].
      simpl in Hin. apply dict_set_In in Hin.
      destruct Hin as [[_ ->]|Hin]; [reflexivity | now apply (Hg k)]. }
  unfold dict_values. induction (nodes (build_graph false w)) as [|[k v] d IH].
  - reflexivity.
  - simpl. unfold is_tag at 1. rewrite (H k v) by now left. simpl.
    apply IH. intros k0 v0 Hin. apply (H k0). now right.
Qed.

(** The walk's directories and files that a step of the builder works on. *)
Lemma build_graph_invariant_in (with_tags : bool) (w : walk)
    (P : graph -> Prop) :
  P empty_graph ->
  (forall root files f g,
     In (root, files) w -> is_excluded_path root = false -> In f files ->
     P g -> P (add_file with_tags root g f)) ->
  P (build_graph with_tags w).
Proof.
  intros Hempty Hstep. unfold build_graph.
  assert (H : forall dirs, incl dirs w -> forall g, P g ->
                           P (fold_left (add_dir with_tags) dirs g)).
  { induction dirs as [|d dirs IH]; intros Hincl g Hg; simpl; [exact Hg|].
    apply IH; [intros x Hx; apply Hincl; now right|].
    unfold add_dir. destruct (is_excluded_path (fst d)) eqn:Hex; [exact Hg|].
    assert (Hd : In (fst d, snd d) w)
      by (apply Hincl; left; now destruct d).
    assert (Hfs : forall fs, incl fs (snd d) -> forall g0, P g0 ->
                    P (fold_left (add_file with_tags (fst d)) fs g0)).
    { induction fs as [|f fs IHf]; intros Hfs g0 Hg0; simpl; [exact Hg0|].
      apply IHf; [intros x Hx; apply Hfs; now right|].
      apply (Hstep (fst d) (snd d)); auto. apply Hfs. now left. }
    apply Hfs; [apply incl_refl | exact Hg]. }
  apply H; [apply incl_refl | exact Hempty].
Qed.

(** X4.  Every node of the built graph comes from the vault.  A note record
    is the record of a [.md] file that was read and parsed in a directory
    outside the excluded vault: its identifier and label are the stem of the
    file name, its size the length of the raw text.  A tag record exists
    only when tag nodes are requested, is labelled [#] and the tag, and its
    tag is on the list of a scanned note.  The target of a link is never
    made a node. *)
Theorem nodes_come_from_vault (with_tags : bool) (w : walk) :
  forall k v, In (k, v) (nodes (build_graph with_tags w)) ->
    (exists root files f src,
       In (root, files) w /\ is_excluded_path root = false /\ In f files
       /\ PyStr.endswith (file_name f) ".md" = true /\ loaded f = Some src
       /\ k = stem (file_name f)
       /\ v = NoteNode k k (path_join root (file_name f)) (meta_tags src)
                       (String.length (content src)))
    \/ (with_tags = true /\ v = TagNode k ("#" ++ k) 1
        /\ exists name src, In (name, src) (scanned_files w)
                            /\ In k (meta_tags src)).
Proof.
  apply (build_graph_invariant_in with_tags w
           (fun g => forall k v, In (k, v) (nodes g) -> _)).
  - intros k v [].
  - intros root files f g Hd Hex Hf Hg k v Hin. unfold add_file in Hin.
    destruct (PyStr.endswith (file_name f) ".md") eqn:Hmd; [|now apply Hg].
    destruct (loaded f) as [src|] eqn:Hl; [|now apply Hg].
    assert (Hscanned : In (file_name f, src) (scanned_files w)).
    { unfold scanned_files. apply in_flat_map. exists (root, files).
      split; [exact Hd|]. simpl. rewrite Hex. unfold scanned_in.
      apply in_flat_map. exists f. split; [exact Hf|].
      rewrite Hmd, Hl. now left. }
    set (name := stem (file_name f)) in *.
    assert (Hnote : forall k v,
               In (k, v) (dict_set name
                            (NoteNode name name (path_join root (file_name f))
                                      (meta_tags src)
                                      (String.length (content src)))
                            (nodes g)) ->
               (exists root files f src,
                  In (root, files) w /\ is_excluded_path root = false
                  /\ In f files
                  /\ PyStr.endswith (file_name f) ".md" = true
                  /\ loaded f = Some src /\ k = stem (file_name f)
                  /\ v = NoteNode k k (path_join root (file_name f))
                                  (meta_tags src)
                                  (String.length (content src)))
               \/ (with_tags = true /\ v = TagNode k ("#" ++ k) 1
                   /\ exists name src, In (name, src) (scanned_files w)
                                       /\ In k (meta_tags src))).
    { intros k0 v0 H0. apply dict_set_In in H0.
      destruct H0 as [[-> ->]|H0]; [|now apply Hg].
      left. exists root, files, f, src. repeat split; auto. }
    destruct with_tags; [|now apply Hnote].
    revert Hin.
    assert (Htags : forall ts g1,
               incl ts (meta_tags src) ->
               (forall k v, In (k, v) (nodes g1) ->
                  (exists root files f src,
                     In (root, files) w /\ is_excluded_path root = false
                     /\ In f files
                     /\ PyStr.endswith (file_name f) ".md" = true
                     /\ loaded f = Some src /\ k = stem (file_name f)
                     /\ v = NoteNode k k (path_join root (file_name f))
                                     (meta_tags src)
                                     (String.length (content src)))
                  \/ (true = true /\ v = TagNode k ("#" ++ k) 1
                      /\ exists name src, In (name, src) (scanned_files w)
                                          /\ In k (meta_tags src))) ->
               forall k v, In (k, v) (nodes (fold_left (add_tag name) ts g1)) ->
                  (exists root files f src,
                     In (root, files) w /\ is_excluded_path root = false
                     /\ In f files
                     /\ PyStr.endswith (file_name f) ".md" = true
                     /\ loaded f = Some src /\ k = stem (file_name f)
                     /\ v = NoteNode k k (path_join root (file_name f))
                                     (meta_tags src)
                                     (String.length (content src)))
                  \/ (true = true /\ v = TagNode k ("#" ++ k) 1
                      /\ exists name src, In (name, src) (scanned_files w)
                                          /\ In k (meta_tags src))).
    { induction ts as [|t ts IH]; intros g1 Hts Hg1; simpl; [exact Hg1|].
      apply IH; [intros x Hx; apply Hts; now right|].
      intros k0 v0 H0. rewrite add_tag_nodes in H0.
      destruct (dict_mem t (nodes g1)); [now apply Hg1|].
      apply dict_set_In in H0. destruct H0 as [[-> ->]|H0]; [|now apply Hg1].
      right. split; [reflexivity|]. split; [reflexivity|].
      exists (file_name f), src. split; [exact Hscanned|].
      apply Hts. now left. }
    apply Htags; [apply incl_refl|]. simpl. exact Hnote.
Qed.

Lemma nodes_come_from_vault_witness :
  (exists root files f src,
     In (root, files) vault_abc /\ is_excluded_path root = false
     /\ In f files
     /\ PyStr.endswith (file_name f) ".md" = true /\ loaded f = Some src
     /\ "x" = stem (file_name f)
     /\ TagNode "x" "#x" 1
        = NoteNode "x" "x" (path_join root (file_name f)) (meta_tags src)
                   (String.length (content src)))
  \/ (true = true /\ TagNode "x" "#x" 1 = TagNode "x" ("#" ++ "x") 1
      /\ exists name src, In (name, src) (scanned_files vault_abc)
                          /\ In "x" (meta_tags src)).
Proof.
  apply (nodes_come_from_vault true vault_abc "x" (TagNode "x" "#x" 1)).
  right. left. reflexivity.
Defined.

Lemma filter_split_length {A : Type} (p : A -> bool) (l : list A) :
  List.length (filter p l) + List.length (filter (fun x => negb (p x)) l)
  = List.length l.
Proof.
  induction l as [|x l IH]; simpl; [reflexivity|].
  destruct (p x); simpl; lia.
Qed.

Lemma flat_map_total_length {A B : Type} (f : A -> list B) (l : list A) :
  List.length (flat_map f l) = list_sum (map (fun x => List.length (f x)) l).
Proof.
  induction l as [|x l IH]; simpl; [reflexivity|].
  now rewrite length_app, IH.
Qed.

(** X5.  The statistics describe the answer they come with:
    [total_notes] and [total_tags] add up to the number of returned nodes,
    and [total_links] is the number of returned edges, of either type.  For
    the unfiltered graph [total_links] is therefore the number of wiki
    links in the scanned notes plus, when tag nodes are requested, the
    number of entries of their tag lists. *)
Theorem stats_count_the_answer (request : GraphRequest) (w : walk) :
  exists resp,
    generate_graph request (VaultTree w) = Response resp
    /\ total_notes (resp_stats resp) + total_tags (resp_stats resp)
       = List.length (resp_nodes resp)
    /\ total_links (resp_stats resp) = List.length (resp_edges resp)
    /\ (scoped request (build_graph (include_tags request) w) = None ->
        total_links (resp_stats resp)
        = list_sum (map (fun p => List.length (findall_links (content (snd p))))
                        (scanned_files w))
          + (if include_tags request
             then list_sum (map (fun p => List.length (meta_tags (snd p)))
                                (scanned_files w))
             else 0)).
Proof.
  eexists. split; [reflexivity|]. simpl. split; [|split].
  - unfold count_nodes, is_tag. apply filter_split_length.
  - reflexivity.
  - intros Hnone. unfold filter_graph. rewrite Hnone.
    rewrite <- (filter_split_length is_link).
    fold is_tag_edge.
    change (fun x => negb (is_link x)) with is_tag_edge.
    rewrite build_graph_tag_edges. unfold build_graph at 1.
    rewrite add_dirs_links. simpl. rewrite flat_map_total_length.
    f_equal.
    + apply f_equal. apply map_ext. intros p. unfold link_edges.
      apply length_map.
    + destruct (include_tags request); [|reflexivity].
      rewrite flat_map_total_length. apply f_equal. apply map_ext.
      intros p. unfold tag_edges. apply length_map.
Qed.

(** ** The scoped traversal: which nodes it returns *)

Section TraverseReach.

Variable all_nodes : dict node_record.
Variable all_edges : list edge.

Local Abbreviation walk_from levels n st :=
  (traverse_levels all_nodes all_edges levels n st).
Local Abbreviation has k st := (dict_mem k (filtered_nodes st) = true).

Lemma has_keep_node (k n : string) (record : node_record) (st : selection) :
  has k (keep_node n record st) <-> k = n \/ has k st.
Proof.
  simpl. rewrite dict_mem_set, orb_true_iff, String.eqb_eq. tauto.
Qed.

(** What is kept by [keep_node] on a node of the graph and by [keep_edge]
    on an edge of the graph is kept by a call. *)
Lemma traverse_levels_invariant (P : selection -> Prop) :
  (forall n record st,
     dict_get n all_nodes = Some record -> P st -> P (keep_node n record st)) ->
  (forall e st, In e all_edges -> P st -> P (keep_edge e st)) ->
  forall levels n st, P st -> P (walk_from levels n st).
Proof.
  intros Hnode Hedge. induction levels as [|below IH]; intros n st Hst; simpl.
  - exact Hst.
  - destruct (dict_get n all_nodes) as [record|] eqn:Hget; [|exact Hst].
    assert (Hloop : forall es, incl es all_edges -> forall cur, P cur ->
               P (fold_left (visit_edge (traverse_levels all_nodes all_edges
                                           below) n) es cur)).
    { induction es as [|x es IHes]; intros Hes cur Hcur; simpl; [exact Hcur|].
      apply IHes; [intros y Hy; apply Hes; now right|].
      assert (Hx : In x all_edges) by (apply Hes; now left).
      unfold visit_edge.
      destruct (_ && _); [apply IH; now apply Hedge|].
      destruct (_ && _); [apply IH; now apply Hedge | exact Hcur]. }
    apply Hloop; [apply incl_refl|]. now apply Hnode with (1 := Hget).
Qed.

Lemma traverse_levels_NoDup (levels : nat) (n : string) (st : selection) :
  NoDup (dict_keys (filtered_nodes st)) ->
  NoDup (dict_keys (filtered_nodes (walk_from levels n st))).
Proof.
  apply (traverse_levels_invariant
           (fun s => NoDup (dict_keys (filtered_nodes s)))).
  - intros k record s _ Hs. simpl. now apply dict_set_NoDup.
  - intros e s _ Hs. exact Hs.
Qed.

(** Every kept identifier is fewer than [bound] edges from the root. *)
Definition near (root : string) (bound : nat) (st : selection) : Prop :=
  forall k, has k st ->
    exists steps, steps < bound /\ reach all_edges root steps k.

Lemma traverse_levels_near (root : string) (bound : nat) :
  forall levels n st steps,
    reach all_edges root steps n ->
    steps + levels <= bound ->
    near root bound st ->
    near root bound (walk_from levels n st).
Proof.
  induction levels as [|below IH]; intros n st steps Hn Hb Hst; simpl.
  - exact Hst.
  - destruct (dict_get n all_nodes) as [record|]; [|exact Hst].
    assert (Hloop : forall es, incl es all_edges -> forall cur,
               near root bound cur ->
               near root bound
                 (fold_left (visit_edge (traverse_levels all_nodes all_edges
                                           below) n) es cur)).
    { induction es as [|x es IHes]; intros Hes cur Hcur; simpl; [exact Hcur|].
      apply IHes; [intros y Hy; apply Hes; now right|].
      assert (Hx : In x all_edges) by (apply Hes; now left).
      unfold visit_edge.
      destruct (String.eqb (source x) n
                && negb (dict_mem (target x) (filtered_nodes cur))) eqn:E1.
      - apply andb_true_iff in E1. destruct E1 as [Es _].
        apply String.eqb_eq in Es.
        apply (IH _ _ (S steps)); [|lia|exact Hcur].
        apply reach_out; [now rewrite Es | exact Hx].
      - destruct (String.eqb (target x) n
                  && negb (dict_mem (source x) (filtered_nodes cur))) eqn:E2;
          [|exact Hcur].
        apply andb_true_iff in E2. destruct E2 as [Et _].
        apply String.eqb_eq in Et.
        apply (IH _ _ (S steps)); [|lia|exact Hcur].
        apply reach_in; [now rewrite Et | exact Hx]. }
    apply Hloop; [apply incl_refl|].
    intros k Hk. apply has_keep_node in Hk. destruct Hk as [->|Hk].
    + exists steps. split; [lia | exact Hn].
    + now apply Hst.
Qed.

(** A call with a level left keeps its node, when it is a node of the
    graph. *)
Lemma call_keeps_node (below : nat) (n : string) (st : selection) :
  dict_mem n (filtered_nodes st) = false ->
  dict_mem n all_nodes = true ->
  has n (walk_from (S below) n st).
Proof.
  intros Hfresh Hin. simpl. unfold dict_mem in Hin.
  destruct (dict_get n all_nodes) as [record|]; [|discriminate].
  apply (inv_root all_edges st n (nil ++ all_edges)).
  apply visit_edges_inv; [|exact Hfresh|apply loop_start].
  intros m s Hm. now apply traverse_levels_extends.
Qed.

Lemma visit_edge_grows (below : nat) (n k : string) (cur : selection)
    (x : edge) :
  has k cur ->
  has k (visit_edge (traverse_levels all_nodes all_edges below) n cur x).
Proof.
  intros Hk. unfold visit_edge.
  destruct (String.eqb (source x) n
            && negb (dict_mem (target x) (filtered_nodes cur))) eqn:E1.
  - apply andb_true_iff in E1. destruct E1 as [_ F].
    apply negb_true_iff in F.
    apply (ext_nodes all_edges _ _
             (traverse_levels_extends all_nodes all_edges below (target x)
                (keep_edge x cur) F)).
    exact Hk.
  - destruct (String.eqb (target x) n
              && negb (dict_mem (source x) (filtered_nodes cur))) eqn:E2;
      [|exact Hk].
    apply andb_true_iff in E2. destruct E2 as [_ F].
    apply negb_true_iff in F.
    apply (ext_nodes all_edges _ _
             (traverse_levels_extends all_nodes all_edges below (source x)
                (keep_edge x cur) F)).
    exact Hk.
Qed.

Lemma visit_edges_grow (below : nat) (n k : string) (es : list edge)
    (cur : selection) :
  has k cur ->
  has k (fold_left (visit_edge (traverse_levels all_nodes all_edges below) n)
                   es cur).
Proof.
  revert cur. induction es as [|x es IH]; intros cur Hk; simpl; [exact Hk|].
  apply IH. now apply visit_edge_grows.
Qed.

(** With two levels or more, the loop for [n] leaves every neighbour of [n]
    kept that is a node of the graph. *)
Lemma visit_edges_keep_neighbours (below : nat) (n : string)
    (es : list edge) (cur : selection) :
  has n cur ->
  forall e, In e es ->
    let out := fold_left (visit_edge (traverse_levels all_nodes all_edges
                                        (S below)) n) es cur in
    (source e = n -> dict_mem (target e) all_nodes = true -> has (target e) out)
    /\ (target e = n -> dict_mem (source e) all_nodes = true ->
        has (source e) out).
Proof.
  revert cur. induction es as [|x es IH]; intros cur Hn e Hin; [destruct Hin|].
  cbn [fold_left]. destruct Hin as [->|Hin].
  2: { apply IH; [now apply visit_edge_grows | exact Hin]. }
  assert (Hhead :
            (source e = n -> dict_mem (target e) all_nodes = true ->
             has (target e)
                 (visit_edge (traverse_levels all_nodes all_edges (S below))
                             n cur e))
            /\ (target e = n -> dict_mem (source e) all_nodes = true ->
                has (source e)
                    (visit_edge (traverse_levels all_nodes all_edges (S below))
                                n cur e))).
  { split; intros H1 H2.
    - destruct (dict_mem (target e) (filtered_nodes cur)) eqn:Mt.
      + now apply visit_edge_grows.
      + unfold visit_edge. rewrite H1, String.eqb_refl, Mt. cbn [andb negb].
        now apply call_keeps_node.
    - destruct (dict_mem (source e) (filtered_nodes cur)) eqn:Ms.
      + now apply visit_edge_grows.
      + unfold visit_edge. rewrite H1, Hn, String.eqb_refl, Ms.
        rewrite andb_false_r. cbn [andb negb].
        now apply call_keeps_node. }
  destruct Hhead as [H1 H2]. split; intros Ha Hb;
    apply visit_edges_grow; auto.
Qed.

End TraverseReach.

(** The answer of a scoped request, as the selection of the traversal. *)
Lemma scoped_answer (request : GraphRequest) (w : walk) (r : string) :
  node request = Some r -> r <> "" ->
  dict_mem r (nodes (build_graph (include_tags request) w)) = true ->
  generate_graph request (VaultTree w)
  = Response
      (respond
         {| nodes := filtered_nodes
                       (traverse_levels
                          (nodes (build_graph (include_tags request) w))
                          (edges (build_graph (include_tags request) w))
                          (Z.to_nat (depth request)) r empty_selection);
            edges := filtered_edges
                       (traverse_levels
                          (nodes (build_graph (include_tags request) w))
                          (edges (build_graph (include_tags request) w))
                          (Z.to_nat (depth request)) r empty_selection) |}).
Proof.
  intros Hn Hr Hin. unfold generate_graph, filter_graph.
  now rewrite (scoped_present _ _ _ Hn Hr Hin).
Qed.

Lemma selection_ids (with_tags : bool) (w : walk) (st : selection) :
  from_graph (nodes (build_graph with_tags w)) st ->
  map node_id (dict_values (filtered_nodes st))
  = dict_keys (filtered_nodes st).
Proof.
  intros F. destruct (build_graph_well_keyed with_tags w) as [_ Hids].
  apply keyed_values_ids. intros k v Hkv. apply Hids.
  apply dict_get_In. now apply F.
Qed.

Lemma kept_record_is_returned (all_nodes : dict node_record)
    (st : selection) (k : string) (v : node_record) :
  from_graph all_nodes st ->
  dict_mem k (filtered_nodes st) = true ->
  dict_get k all_nodes = Some v ->
  In v (dict_values (filtered_nodes st)).
Proof.
  intros F Hk Hv. unfold dict_mem in Hk.
  destruct (dict_get k (filtered_nodes st)) as [v'|] eqn:Hget;
    [|discriminate].
  apply dict_get_In in Hget. pose proof (F k v' Hget) as Hv'.
  rewrite Hv in Hv'. inversion Hv'. subst v'.
  unfold dict_values. apply in_map_iff. now exists (k, v).
Qed.

(** X6.  No answer of [generate_graph] holds two nodes with the same
    identifier, whether the depth filter ran or not: the traversal takes a
    node once, however many edges lead to it. *)
Theorem answer_identifiers_distinct (request : GraphRequest) (w : walk) :
  exists resp,
    generate_graph request (VaultTree w) = Response resp
    /\ NoDup (map node_id (resp_nodes resp)).
Proof.
  eexists. split; [reflexivity|]. simpl. unfold filter_graph.
  destruct (build_graph_well_keyed (include_tags request) w) as [Hnd Hids].
  destruct (scoped request (build_graph (include_tags request) w)) as [r|].
  - simpl. unfold traverse.
    rewrite (selection_ids (include_tags request) w)
      by (apply traverse_levels_from_graph; intros k v []).
    apply traverse_levels_NoDup. constructor.
  - rewrite keyed_values_ids by exact Hids. exact Hnd.
Qed.

(** X7.  The scoped traversal never returns a node that is [depth] edges or
    more from the root: every returned node is joined to the root by a
    chain of fewer than [depth] edges of the full graph, each taken in
    either direction. *)
Theorem scoped_nodes_are_near
    (request : GraphRequest) (w : walk) (r : string) (resp : graph_response) :
  node request = Some r ->
  r <> "" ->
  dict_mem r (nodes (build_graph (include_tags request) w)) = true ->
  generate_graph request (VaultTree w) = Response resp ->
  forall v, In v (resp_nodes resp) ->
    exists steps,
      (Z.of_nat steps < depth request)%Z
      /\ reach (edges (build_graph (include_tags request) w)) r steps
               (node_id v).
Proof.
  intros Hn Hr Hin Hresp v Hv.
  rewrite (scoped_answer _ _ _ Hn Hr Hin) in Hresp.
  inversion Hresp as [Heq]. subst resp. clear Hresp. simpl in Hv.
  set (g := build_graph (include_tags request) w) in *.
  set (out := traverse_levels (nodes g) (edges g) (Z.to_nat (depth request))
                              r empty_selection) in *.
  assert (F : from_graph (nodes g) out)
    by (apply traverse_levels_from_graph; intros k v0 []).
  assert (N : near (edges g) r (Z.to_nat (depth request)) out).
  { apply (traverse_levels_near (nodes g) (edges g) r
             (Z.to_nat (depth request)) (Z.to_nat (depth request)) r
             empty_selection 0).
    - constructor.
    - lia.
    - intros k Hk. discriminate. }
  assert (Hkey : In (node_id v) (dict_keys (filtered_nodes out))).
  { rewrite <- (selection_ids (include_tags request) w out F).
    now apply in_map. }
  apply dict_mem_keys in Hkey. destruct (N _ Hkey) as [steps [Hlt Hreach]].
  exists steps. split; [lia | exact Hreach].
Qed.

Lemma scoped_nodes_are_near_witness :
  exists steps,
    (Z.of_nat steps < 2)%Z
    /\ reach (edges (build_graph true vault_abc)) "A" steps "B".
Proof.
  refine (scoped_nodes_are_near
            (graph_request 2 (Some "A")) vault_abc "A"
            (respond (filter_graph (graph_request 2 (Some "A"))
                                   (build_graph true vault_abc)))
            _ _ _ _ (NoteNode "B" "B" "/vault/B.md" ["x"] 8) _).
  - reflexivity.
  - discriminate.
  - reflexivity.
  - reflexivity.
  - simpl. right. left. reflexivity.
Defined.

(** X8.  For a non-empty root that is a node of the graph: at depth 1 or
    more the root is returned; at depth 2 or more so is every node of the
    graph that an edge joins to the root, in either direction. *)
Theorem root_and_neighbours_are_returned
    (request : GraphRequest) (w : walk) (r : string) (record : node_record)
    (resp : graph_response) :
  node request = Some r ->
  r <> "" ->
  dict_get r (nodes (build_graph (include_tags request) w)) = Some record ->
  generate_graph request (VaultTree w) = Response resp ->
  ((1 <= depth request)%Z -> In record (resp_nodes resp))
  /\ ((2 <= depth request)%Z ->
      forall e v,
        In e (edges (build_graph (include_tags request) w)) ->
        (source e = r
         /\ dict_get (target e) (nodes (build_graph (include_tags request) w))
            = Some v)
        \/ (target e = r
            /\ dict_get (source e)
                        (nodes (build_graph (include_tags request) w))
               = Some v) ->
        In v (resp_nodes resp)).
Proof.
  intros Hn Hr Hget Hresp.
  assert (Hin : dict_mem r (nodes (build_graph (include_tags request) w)) = true)
    by (unfold dict_mem; now rewrite Hget).
  rewrite (scoped_answer _ _ _ Hn Hr Hin) in Hresp.
  inversion Hresp as [Heq]. subst resp. clear Hresp. simpl.
  set (g := build_graph (include_tags request) w) in *.
  assert (F : forall levels,
             from_graph (nodes g)
               (traverse_levels (nodes g) (edges g) levels r empty_selection))
    by (intros levels; apply traverse_levels_from_graph; intros k v0 []).
  split; intros Hd.
  - destruct (Z.to_nat (depth request)) as [|below] eqn:Hlev; [lia|].
    apply (kept_record_is_returned (nodes g) _ r); [apply F| |exact Hget].
    now apply call_keeps_node.
  - destruct (Z.to_nat (depth request)) as [|[|below]] eqn:Hlev; [lia|lia|].
    intros e v He Hv.
    pose proof (F (S (S below))) as F2.
    cbn [traverse_levels] in F2 |- *. rewrite Hget in F2 |- *.
    assert (Hroot : dict_mem r (filtered_nodes (keep_node r record
                                                  empty_selection)) = true)
      by (unfold keep_node; cbn [filtered_nodes]; rewrite dict_mem_set;
          now rewrite String.eqb_refl).
    destruct (visit_edges_keep_neighbours (nodes g) (edges g) below r
                (edges g) _ Hroot e He) as [Hout Hinc].
    destruct Hv as [[Hs Hv]|[Ht Hv]].
    + apply (kept_record_is_returned (nodes g) _ (target e));
        [exact F2| |exact Hv].
      apply Hout; [exact Hs|]. unfold dict_mem. now rewrite Hv.
    + apply (kept_record_is_returned (nodes g) _ (source e));
        [exact F2| |exact Hv].
      apply Hinc; [exact Ht|]. unfold dict_mem. now rewrite Hv.
Qed.

Lemma root_and_neighbours_are_returned_witness :
  ((1 <= 2)%Z ->
   In (NoteNode "A" "A" "/vault/A.md" ["x"] 25)
      (resp_nodes (respond (filter_graph (graph_request 2 (Some "A"))
                              (build_graph true vault_abc)))))
  /\ ((2 <= 2)%Z ->
      forall e v,
        In e (edges (build_graph true vault_abc)) ->
        (source e = "A"
         /\ dict_get (target e) (nodes (build_graph true vault_abc)) = Some v)
        \/ (target e = "A"
            /\ dict_get (source e) (nodes (build_graph true vault_abc))
               = Some v) ->
        In v (resp_nodes (respond (filter_graph (graph_request 2 (Some "A"))
                                     (build_graph true vault_abc))))).
Proof.
  apply (root_and_neighbours_are_returned
           (graph_request 2 (Some "A")) vault_abc "A"
           (NoteNode "A" "A" "/vault/A.md" ["x"] 25)).
  - reflexivity.
  - discriminate.
  - reflexivity.
  - reflexivity.
Defined.

(** ** The ranked search: where results come from *)

Section ScanOrigin.

Variable re : regex_engine.
Variable request : SearchRequest.

(** The file [f] of the directory [root] passes every test of the scan and
    is reported as [r]. *)
Definition found (root : string) (f : vault_file) (src : note_source)
    (r : search_result) : Prop :=
  PyStr.endswith (file_name f) ".md" = true
  /\ loaded f = Some src
  /\ mode_matches re request (file_name f) src = Some true
  /\ re_findall_count re (query request) (content src) = Some (matches r)
  /\ r = result_of root (file_name f) src (matches r).

Lemma search_file_found (root : string) (acc : list search_result)
    (f : vault_file) :
  search_file re request root acc f = acc
  \/ exists src r, search_file re request root acc f = acc ++ [r]
                   /\ found root f src r.
Proof.
  unfold search_file, found.
  destruct (PyStr.endswith (file_name f) ".md"); [|now left].
  destruct (loaded f) as [src|] eqn:Hl; [|now left].
  destruct (mode_matches re request (file_name f) src) as [[|]|] eqn:Hm; auto.
  destruct (re_findall_count re (query request) (content src)) as [n|] eqn:Hc;
    auto.
  right. exists src. eexists. split; [reflexivity|]. simpl. auto.
Qed.

Lemma scan_results_found (w : walk) (r : search_result) :
  In r (scan_results re request w) ->
  exists root files f src,
    In (root, files) w /\ In f files
    /\ is_excluded_path root = false /\ outside_folder request root = false
    /\ found root f src r.
Proof.
  unfold scan_results.
  assert (Hfiles : forall root files acc,
             In r (fold_left (search_file re request root) files acc) ->
             In r acc \/ exists f src, In f files /\ found root f src r).
  { intros root files. induction files as [|f files IH]; intros acc Hin.
    - now left.
    - simpl in Hin. apply IH in Hin.
      destruct Hin as [Hin|[f' [src [Hf' Hr]]]].
      + destruct (search_file_found root acc f) as [Heq|[src [x [Heq Hx]]]];
          rewrite Heq in Hin.
        * now left.
        * apply in_app_or in Hin. destruct Hin as [Hin|[<-|[]]].
          -- now left.
          -- right. exists f, src. split; [now left | exact Hx].
      + right. exists f', src. split; [now right | exact Hr]. }
  assert (Hdirs : forall dirs acc,
             In r (fold_left (search_dir re request) dirs acc) ->
             In r acc
             \/ exists root files f src,
                  In (root, files) dirs /\ In f files
                  /\ is_excluded_path root = false
                  /\ outside_folder request root = false
                  /\ found root f src r).
  { induction dirs as [|d dirs IH]; intros acc Hin.
    - now left.
    - simpl in Hin. apply IH in Hin.
      destruct Hin as [Hin|[root [files [f [src [Hd H]]]]]].
      + unfold search_dir in Hin.
        destruct (is_excluded_path (fst d)) eqn:Hex; [now left|].
        destruct (outside_folder request (fst d)) eqn:Hfo; [now left|].
        apply Hfiles in Hin. destruct Hin as [Hin|[f [src [Hf Hr]]]];
          [now left|].
        right. exists (fst d), (snd d), f, src.
        split; [left; now destruct d | auto].
      + right. exists root, files, f, src. split; [now right | exact H]. }
  intros Hin. apply Hdirs in Hin. destruct Hin as [[]|H]. exact H.
Qed.

End ScanOrigin.

Lemma existsb_In_string (t : string) (l : list string) :
  existsb (String.eqb t) l = true <-> In t l.
Proof.
  rewrite existsb_exists. split.
  - intros [x [Hx Heq]]. apply String.eqb_eq in Heq. now subst.
  - intros Hin. exists t. split; [exact Hin | apply String.eqb_refl].
Qed.

(** X9.  Whatever the engine, every returned result is the result of a
    [.md] file that was read and parsed, in a directory outside the excluded
    vault and, when the request names a folder, with that folder in its
    path, and the file passes the test of the requested mode: in content
    mode the lower-cased raw text holds the lower-cased query, in title mode
    the lower-cased file name does, in tags mode the note carries one of the
    requested tags (the query when the request lists none). *)
Theorem results_pass_the_mode_test
    (re : regex_engine) (request : SearchRequest) (w : walk)
    (resp : search_response) (r : search_result) :
  search_notes re request (VaultTree w) = Response resp ->
  In r (results resp) ->
  exists root files f src,
    In (root, files) w /\ In f files
    /\ is_excluded_path root = false
    /\ outside_folder request root = false
    /\ PyStr.endswith (file_name f) ".md" = true
    /\ loaded f = Some src
    /\ r = result_of root (file_name f) src (matches r)
    /\ (search_type request = "content" ->
        PyStr.contains (PyStr.lower (query request))
                       (PyStr.lower (content src)) = true)
    /\ (search_type request = "title" ->
        PyStr.contains (PyStr.lower (query request))
                       (PyStr.lower (file_name f)) = true)
    /\ (search_type request = "tags" ->
        exists t, In t (wanted_tags request) /\ In t (meta_tags src)).
Proof.
  intros Hresp Hin. inversion Hresp as [Heq]. subst resp. simpl in Hin.
  apply slice_to_In in Hin.
  apply (Permutation_in _ (sort_by_matches_perm _)) in Hin.
  apply scan_results_found in Hin.
  destruct Hin as [root [files [f [src [Hd [Hf [Hex [Hfo Hfound]]]]]]]].
  destruct Hfound as [Hmd [Hl [Hm [_ Hr]]]].
  exists root, files, f, src. repeat (split; [assumption|]).
  unfold mode_matches in Hm. split; [|split].
  - intros Hmode. rewrite Hmode in Hm. simpl in Hm. now inversion Hm.
  - intros Hmode. rewrite Hmode in Hm. simpl in Hm. now inversion Hm.
  - intros Hmode. rewrite Hmode in Hm. simpl in Hm. inversion Hm as [Hex'].
    apply existsb_exists in Hex'. destruct Hex' as [t [Ht Hin']].
    exists t. split; [exact Ht|]. now apply existsb_In_string.
Qed.

Lemma results_pass_the_mode_test_witness :
  exists root files f src,
    In (root, files) vault_abc /\ In f files
    /\ is_excluded_path root = false
    /\ outside_folder (search_request "links" "content") root = false
    /\ PyStr.endswith (file_name f) ".md" = true
    /\ loaded f = Some src
    /\ {| path := "/vault/B.md"; title := "B"; preview := "no links";
          result_tags := ["x"]; modified := ""; matches := 1 |}
       = result_of root (file_name f) src 1
    /\ ("content" = "content" ->
        PyStr.contains (PyStr.lower "links") (PyStr.lower (content src))
        = true)
    /\ ("content" = "title" ->
        PyStr.contains (PyStr.lower "links") (PyStr.lower (file_name f))
        = true)
    /\ ("content" = "tags" ->
        exists t, In t (wanted_tags (search_request "links" "content"))
                  /\ In t (meta_tags src)).
Proof.
  refine (results_pass_the_mode_test
            plain_engine (search_request "links" "content") vault_abc _
            {| path := "/vault/B.md"; title := "B"; preview := "no links";
               result_tags := ["x"]; modified := ""; matches := 1 |} _ _).
  - reflexivity.
  - left. reflexivity.
Defined.



Lemma take_length (n : nat) (s : string) :
  String.length (PyStr.take n s) = Nat.min n (String.length s).
Proof.
  unfold PyStr.take. revert s. induction n as [|n IH]; intros s.
  - now destruct s.
  - destruct s as [|c s]; simpl; [reflexivity|]. now rewrite IH.
Qed.

Lemma append_length (s1 s2 : string) :
  String.length (s1 ++ s2) = String.length s1 + String.length s2.
Proof. induction s1 as [|c s1 IH]; simpl; [reflexivity | now rewrite IH]. Qed.

(** X11.  The preview of every returned result is the raw text itself when
    the text has at most 200 characters, and otherwise its first 200
    characters followed by three dots: 203 characters, never more. *)
Theorem previews_are_bounded
    (re : regex_engine) (request : SearchRequest) (w : walk)
    (resp : search_response) (r : search_result) :
  search_notes re request (VaultTree w) = Response resp ->
  In r (results resp) ->
  String.length (preview r) <= 203
  /\ exists src,
       In src (map snd (scanned_files w))
       /\ (String.length (content src) <= 200 -> preview r = content src)
       /\ (200 < String.length (content src) ->
           preview r = (PyStr.take 200 (content src) ++ "...")%string
           /\ String.length (preview r) = 203).
Proof.
  intros Hresp Hin. inversion Hresp as [Heq]. subst resp. simpl in Hin.
  apply slice_to_In in Hin.
  apply (Permutation_in _ (sort_by_matches_perm _)) in Hin.
  apply scan_results_found in Hin.
  destruct Hin as [root [files [f [src [Hd [Hf [Hex [Hfo Hfound]]]]]]]].
  destruct Hfound as [Hmd [Hl [_ [_ Hr]]]].
  assert (Hprev : preview r = preview_of (content src))
    by (rewrite Hr; reflexivity).
  assert (Hlong : 200 < String.length (content src) ->
            String.length (PyStr.take 200 (content src) ++ "...") = 203).
  { intros Hlen. rewrite append_length, take_length.
    rewrite Nat.min_l by lia. reflexivity. }
  rewrite Hprev. unfold preview_of.
  destruct (Nat.ltb_spec 200 (String.length (content src))) as [Hlen|Hlen].
  - split; [rewrite (Hlong Hlen); lia|]. exists src. split; [|split].
    + apply in_map_iff. exists (file_name f, src). split; [reflexivity|].
      unfold scanned_files. apply in_flat_map. exists (root, files).
      split; [exact Hd|]. simpl. rewrite Hex. unfold scanned_in.
      apply in_flat_map. exists f. split; [exact Hf|].
      rewrite Hmd, Hl. now left.
    + lia.
    + intros _. split; [reflexivity | now apply Hlong].
  - split; [lia|]. exists src. split; [|split].
    + apply in_map_iff. exists (file_name f, src). split; [reflexivity|].
      unfold scanned_files. apply in_flat_map. exists (root, files).
      split; [exact Hd|]. simpl. rewrite Hex. unfold scanned_in.
      apply in_flat_map. exists f. split; [exact Hf|].
      rewrite Hmd, Hl. now left.
    + reflexivity.
    + lia.
Qed.

Lemma previews_are_bounded_witness :
  String.length "no links" <= 203
  /\ exists src,
       In src (map snd (scanned_files vault_abc))
       /\ (String.length (content src) <= 200 -> "no links" = content src)
       /\ (200 < String.length (content src) ->
           "no links" = (PyStr.take 200 (content src) ++ "...")%string
           /\ String.length "no links" = 203).
Proof.
  refine (previews_are_bounded
            plain_engine (search_request "links" "content") vault_abc _
            {| path := "/vault/B.md"; title := "B"; preview := "no links";
               result_tags := ["x"]; modified := ""; matches := 1 |} _ _).
  - reflexivity.
  - left. reflexivity.
Defined.

(** ** [ai_assist] *)

(** X12.  [ai_assist] answers each of its five actions with a record that
    names the action, and every other action with status 500: the
    [HTTPException] of status 400 that the last branch raises is caught by
    the handler around it and raised again, so that no caller ever sees
    the status 400. *)
Theorem ai_assist_never_answers_400
    (exception_text : Z -> string -> string)
    (request : Assist.AIAssistRequest) :
  (In (Assist.action request) Assist.known_actions ->
   exists e,
     Assist.ai_assist exception_text request
     = Response {| Assist.resp_action := Assist.action request;
                   Assist.resp_entry := e |})
  /\ (~ In (Assist.action request) Assist.known_actions ->
      Assist.ai_assist exception_text request
      = HTTPException 500%Z
          (exception_text 400%Z
             ("Unknown action: " ++ Assist.action request)%string))
  /\ (forall status detail,
        Assist.ai_assist exception_text request
        = HTTPException status detail ->
        status = 500%Z).
Proof.
  unfold Assist.ai_assist, Assist.ai_assist_body, Assist.known_actions.
  destruct (String.eqb_spec (Assist.action request) "summarize") as [->|N1].
  { split; [intros _; eexists; reflexivity|]. split.
    - intros H. exfalso. apply H. simpl. auto.
    - intros status detail H. discriminate. }
  destruct (String.eqb_spec (Assist.action request) "expand") as [->|N2].
  { split; [intros _; eexists; reflexivity|]. split.
    - intros H. exfalso. apply H. simpl. auto.
    - intros status detail H. discriminate. }
  destruct (String.eqb_spec (Assist.action request) "connect") as [->|N3].
  { split; [intros _; eexists; reflexivity|]. split.
    - intros H. exfalso. apply H. simpl. auto.
    - intros status detail H. discriminate. }
  destruct (String.eqb_spec (Assist.action request) "generate_questions")
    as [->|N4].
  { split; [intros _; eexists; reflexivity|]. split.
    - intros H. exfalso. apply H. simpl. auto.
    - intros status detail H. discriminate. }
  destruct (String.eqb_spec (Assist.action request) "create_outline")
    as [->|N5].
  { split; [intros _; eexists; reflexivity|]. split.
    - intros H. exfalso. apply H. simpl. auto 6.
    - intros status detail H. discriminate. }
  simpl. split; [|split].
  - intros [H|[H|[H|[H|[H|[]]]]]]; congruence.
  - intros _. reflexivity.
  - intros status detail H. now inversion H.
Qed.

(** ** [get_vault_stats]: the scan *)

Lemma fold_left_flat_map {A B C : Type} (f : A -> B -> A) (g : C -> list B)
    (l : list C) (a : A) :
  fold_left f (flat_map g l) a
  = fold_left (fun acc x => fold_left f (g x) acc) l a.
Proof.
  revert a. induction l as [|x l IH]; intros a; simpl; [reflexivity|].
  now rewrite fold_left_app, IH.
Qed.

Lemma fold_left_same {A B : Type} (f g : A -> B -> A) (l : list B) (a : A) :
  (forall acc x, f acc x = g acc x) -> fold_left f l a = fold_left g l a.
Proof.
  intros Hfg. revert a. induction l as [|x l IH]; intros a; simpl.
  - reflexivity.
  - now rewrite Hfg, IH.
Qed.

Lemma fold_left_mapped {A B C : Type} (f : A -> B -> A) (h : C -> B)
    (l : list C) (a : A) :
  fold_left f (map h l) a = fold_left (fun acc x => f acc (h x)) l a.
Proof.
  revert a. induction l as [|x l IH]; intros a; simpl; [reflexivity|].
  apply IH.
Qed.

Lemma set_add_In (x y : string) (s : list string) :
  In x (set_add y s) <-> x = y \/ In x s.
Proof.
  unfold set_add. destruct (existsb (String.eqb y) s) eqn:E.
  - apply existsb_In_string in E. split; [tauto|].
    intros [->|H]; assumption.
  - rewrite in_app_iff. simpl. split; [intros [H|[H|[]]]; auto|].
    intros [->|H]; auto.
Qed.

Lemma set_adds_In {A : Type} (h : A -> string) (x : string) (l : list A)
    (s : list string) :
  In x (fold_left (fun acc a => set_add (h a) acc) l s)
  <-> In x s \/ exists a, In a l /\ h a = x.
Proof.
  revert s. induction l as [|a l IH]; intros s; simpl.
  - split; [tauto | intros [H|[a [[] _]]]; exact H].
  - rewrite IH, set_add_In. split.
    + intros [[->|H]|[b [Hb Hx]]]; eauto.
    + intros [H|[b [[<-|Hb] Hx]]]; eauto.
Qed.

Lemma set_minus_In (x : string) (a b : list string) :
  In x (VaultStats.set_minus a b) <-> In x a /\ ~ In x b.
Proof.
  unfold VaultStats.set_minus. rewrite filter_In, negb_true_iff.
  split; intros [Ha Hb]; split; auto.
  - intros Hin. apply existsb_In_string in Hin. congruence.
  - destruct (existsb (String.eqb x) b) eqn:E; [|reflexivity].
    apply existsb_In_string in E. contradiction.
Qed.

Lemma bump_sum (k : string) (d : dict nat) :
  list_sum (dict_values (VaultStats.bump k d))
  = list_sum (dict_values d) + 1.
Proof.
  unfold VaultStats.bump, dict_values.
  induction d as [|[k' v'] d IH]; simpl; [reflexivity|].
  destruct (String.eqb k k') eqn:E; simpl.
  - lia.
  - rewrite IH. lia.
Qed.

Section StatsScan.

Variable relative_folder : string -> string.

(** One file of [files_under], counted. *)
Definition count_under (t : VaultStats.tally) (p : string * disk_file)
    : VaultStats.tally :=
  VaultStats.count_file (fst p) (relative_folder (fst p)) t (snd p).

Lemma scan_files_under (dw : disk_walk) :
  VaultStats.scan relative_folder dw
  = fold_left count_under (files_under dw) VaultStats.empty_tally.
Proof.
  unfold VaultStats.scan, files_under. rewrite fold_left_flat_map.
  apply fold_left_same. intros t d. unfold VaultStats.count_dir.
  destruct (is_excluded_path (fst d)); [reflexivity|].
  now rewrite fold_left_mapped.
Qed.

Lemma count_under_other (t : VaultStats.tally) (p : string * disk_file) :
  is_md p = false -> count_under t p = t.
Proof.
  unfold is_md, count_under, VaultStats.count_file. now intros ->.
Qed.

Lemma count_under_md (t : VaultStats.tally) (p : string * disk_file) :
  is_md p = true ->
  VaultStats.total_notes (count_under t p) = VaultStats.total_notes t + 1
  /\ VaultStats.total_links (count_under t p)
     = VaultStats.total_links t + List.length (links_read p)
  /\ VaultStats.all_notes (count_under t p)
     = set_add (stem (disk_name (snd p))) (VaultStats.all_notes t)
  /\ VaultStats.linked_notes (count_under t p)
     = fold_left (fun s l => set_add (clean_link l) s) (links_read p)
                 (VaultStats.linked_notes t)
  /\ VaultStats.folders (count_under t p)
     = VaultStats.bump (relative_folder (fst p)) (VaultStats.folders t)
  /\ VaultStats.recent_notes (count_under t p)
     = VaultStats.recent_notes t ++ recent_of p.
Proof.
  unfold is_md, count_under, VaultStats.count_file, links_read, recent_of.
  intros ->.
  destruct (disk_text (snd p)) as [text|]; simpl.
  2: { repeat split; try reflexivity; try lia. now rewrite app_nil_r. }
  destruct (disk_post (snd p)) as [[tag_list changed]|]; simpl.
  2: { repeat split; try reflexivity. now rewrite app_nil_r. }
  destruct (disk_mtime (snd p)) as [m|]; simpl.
  - repeat split; reflexivity.
  - repeat split; try reflexivity. now rewrite app_nil_r.
Qed.

(** The tally after a run of files, field by field. *)
Lemma counted_totals (l : list (string * disk_file)) (t : VaultStats.tally) :
  let out := fold_left count_under l t in
  VaultStats.total_notes out
  = VaultStats.total_notes t + List.length (filter is_md l)
  /\ VaultStats.total_links out
     = VaultStats.total_links t
       + list_sum (map (fun p => List.length (links_read p)) (filter is_md l))
  /\ list_sum (dict_values (VaultStats.folders out))
     = list_sum (dict_values (VaultStats.folders t))
       + List.length (filter is_md l)
  /\ VaultStats.recent_notes out
     = VaultStats.recent_notes t ++ flat_map recent_of (filter is_md l).
Proof.
  revert t. induction l as [|p l IH]; intros t; simpl.
  - repeat split; try lia. now rewrite app_nil_r.
  - destruct (is_md p) eqn:Hmd.
    + destruct (count_under_md t p Hmd) as [H1 [H2 [_ [_ [H5 H6]]]]].
      destruct (IH (count_under t p)) as [I1 [I2 [I3 I4]]].
      simpl in I1, I2, I3, I4. rewrite I1, I2, I3, I4, H1, H2, H5, H6.
      rewrite bump_sum. simpl. repeat split; try lia.
      now rewrite <- app_assoc.
    + rewrite (count_under_other t p Hmd). apply IH.
Qed.

Lemma counted_names (n : string) (l : list (string * disk_file))
    (t : VaultStats.tally) :
  In n (VaultStats.all_notes (fold_left count_under l t))
  <-> In n (VaultStats.all_notes t)
      \/ exists p, In p (filter is_md l) /\ stem (disk_name (snd p)) = n.
Proof.
  revert t. induction l as [|p l IH]; intros t; simpl.
  - split; [tauto | intros [H|[p [[] _]]]; exact H].
  - rewrite IH. destruct (is_md p) eqn:Hmd.
    + destruct (count_under_md t p Hmd) as [_ [_ [H3 _]]].
      rewrite H3, set_add_In. simpl. split.
      * intros [[Hn|H]|[q [Hq Hn]]].
        -- right. exists p. split; [now left | now symmetry].
        -- now left.
        -- right. exists q. split; [now right | exact Hn].
      * intros [H|[q [[Hq|Hq] Hn]]].
        -- left. now right.
        -- left. left. subst q. now symmetry.
        -- right. exists q. split; assumption.
    + rewrite (count_under_other t p Hmd). reflexivity.
Qed.

Lemma counted_targets (n : string) (l : list (string * disk_file))
    (t : VaultStats.tally) :
  In n (VaultStats.linked_notes (fold_left count_under l t))
  <-> In n (VaultStats.linked_notes t)
      \/ exists p x, In p (filter is_md l) /\ In x (links_read p)
                     /\ clean_link x = n.
Proof.
  revert t. induction l as [|p l IH]; intros t; simpl.
  - split; [tauto | intros [H|[p [x [[] _]]]]; exact H].
  - rewrite IH. destruct (is_md p) eqn:Hmd.
    + destruct (count_under_md t p Hmd) as [_ [_ [_ [H4 _]]]].
      rewrite H4, set_adds_In. simpl. split.
      * intros [[H|[x [Hx Hn]]]|[q [x [Hq [Hx Hn]]]]].
        -- now left.
        -- right. exists p, x. split; [now left | split; assumption].
        -- right. exists q, x. split; [now right | split; assumption].
      * intros [H|[q [x [[Hq|Hq] [Hx Hn]]]]].
        -- left. now left.
        -- left. right. subst q. exists x. split; assumption.
        -- right. exists q, x. split; [assumption | split; assumption].
    + rewrite (count_under_other t p Hmd). reflexivity.
Qed.

End StatsScan.

(** ** [get_vault_stats]: the answer *)

Lemma string_leb_trans (a b c : string) :
  String.leb a b = true -> String.leb b c = true -> String.leb a c = true.
Proof.
  unfold String.leb. revert b c.
  induction a as [|x a IH]; intros [|y b] [|z c]; simpl; try easy.
  unfold Ascii.compare.
  destruct (N.compare_spec (N_of_ascii x) (N_of_ascii y));
    destruct (N.compare_spec (N_of_ascii y) (N_of_ascii z));
    destruct (N.compare_spec (N_of_ascii x) (N_of_ascii z));
    try easy; try lia.
  apply IH.
Qed.

Lemma insert_recent_perm (x : VaultStats.recent_note)
    (l : list VaultStats.recent_note) :
  Permutation (VaultStats.insert_recent x l) (x :: l).
Proof.
  induction l as [|y l IH]; simpl; [reflexivity|].
  destruct (String.leb _ _); [reflexivity|].
  rewrite IH. apply perm_swap.
Qed.

Lemma sort_recent_perm (l : list VaultStats.recent_note) :
  Permutation (VaultStats.sort_recent l) l.
Proof.
  induction l as [|x l IH]; simpl; [reflexivity|].
  rewrite insert_recent_perm. now constructor.
Qed.

Lemma insert_recent_sorted (x : VaultStats.recent_note)
    (l : list VaultStats.recent_note) :
  StronglySorted no_older l ->
  StronglySorted no_older (VaultStats.insert_recent x l).
Proof.
  induction l as [|y l IH]; intros Hs; simpl.
  - constructor; [constructor | constructor].
  - inversion Hs as [|? ? Hl Hy]; subst.
    destruct (String.leb (VaultStats.modified y) (VaultStats.modified x))
      eqn:Hyx.
    + constructor; [exact Hs|]. constructor; [exact Hyx|].
      rewrite Forall_forall in *. intros z Hz. unfold no_older in *.
      apply string_leb_trans with (VaultStats.modified y); auto.
    + constructor; [now apply IH|].
      rewrite Forall_forall in *. intros z Hz.
      apply (Permutation_in _ (insert_recent_perm x l)) in Hz.
      destruct Hz as [<-|Hz]; [|now apply Hy].
      unfold no_older.
      destruct (String.leb_total (VaultStats.modified x)
                                 (VaultStats.modified y)) as [H|H];
        [exact H | congruence].
Qed.

Lemma sort_recent_sorted (l : list VaultStats.recent_note) :
  StronglySorted no_older (VaultStats.sort_recent l).
Proof.
  induction l as [|x l IH]; simpl; [constructor|].
  now apply insert_recent_sorted.
Qed.

Lemma sorted_prefix {A : Type} (R : A -> A -> Prop) (front back : list A) :
  StronglySorted R (front ++ back) ->
  StronglySorted R front
  /\ forall a b, In a front -> In b back -> R a b.
Proof.
  induction front as [|x front IH]; intros Hs.
  - split; [constructor | intros a b []].
  - simpl in Hs. inversion Hs as [|? ? Hrest Hall]; subst.
    destruct (IH Hrest) as [Hf Hfb]. rewrite Forall_forall in Hall. split.
    + constructor; [exact Hf|]. rewrite Forall_forall. intros z Hz.
      apply Hall. apply in_or_app. now left.
    + intros a b [<-|Ha] Hb; [|now apply Hfb].
      apply Hall. apply in_or_app. now right.
Qed.

(** The totals of the answer, over the [.md] files of the walk. *)
Lemma stats_totals (relative_folder : string -> string) (dw : disk_walk) :
  let t := VaultStats.scan relative_folder dw in
  VaultStats.total_notes t = List.length (md_files dw)
  /\ list_sum (dict_values (VaultStats.folders t)) = List.length (md_files dw)
  /\ VaultStats.total_links t
     = list_sum (map (fun p => List.length (links_read p)) (md_files dw)).
Proof.
  simpl. rewrite scan_files_under.
  destruct (counted_totals relative_folder (files_under dw)
              VaultStats.empty_tally) as [H1 [H2 [H3 _]]].
  simpl in H1, H2, H3. unfold md_files. rewrite H1, H2, H3. auto.
Qed.

(** X13.  [get_vault_stats] counts every [.md] file of the directories
    outside the excluded vault as a note, whether it can be read or not;
    the counts per folder add up to that number; and [total_links] is the
    number of wiki links in the files that can be read, whether their
    metadata can be parsed or not. *)
Theorem stats_count_every_md_file
    (relative_folder : string -> string) (dw : disk_walk) :
  exists resp,
    VaultStats.get_vault_stats relative_folder (VaultStats.DiskTree dw)
    = Response resp
    /\ VaultStats.resp_total_notes resp = List.length (md_files dw)
    /\ list_sum (dict_values (VaultStats.resp_folders resp))
       = VaultStats.resp_total_notes resp
    /\ VaultStats.resp_total_links resp
       = list_sum (map (fun p => List.length (links_read p)) (md_files dw)).
Proof.
  eexists. split; [reflexivity|].
  destruct (stats_totals relative_folder dw) as [H1 [H2 H3]].
  unfold VaultStats.finish. cbn [VaultStats.resp_total_notes
    VaultStats.resp_folders VaultStats.resp_total_links].
  rewrite H1, H2, H3. auto.
Qed.

(** X14.  A note is listed as an orphan exactly when no wiki link in any
    readable [.md] file points at its name: the links that the note itself
    holds play no part, and a note that links to others but is linked from
    nowhere is an orphan. *)
Theorem orphans_are_the_unlinked_names
    (relative_folder : string -> string) (dw : disk_walk) :
  exists resp,
    VaultStats.get_vault_stats relative_folder (VaultStats.DiskTree dw)
    = Response resp
    /\ forall n,
         In n (VaultStats.resp_orphan_notes resp)
         <-> (exists p, In p (md_files dw) /\ stem (disk_name (snd p)) = n)
             /\ ~ (exists p l, In p (md_files dw) /\ In l (links_read p)
                               /\ clean_link l = n).
Proof.
  eexists. split; [reflexivity|]. intros n. simpl.
  rewrite set_minus_In, scan_files_under.
  rewrite counted_names, counted_targets. simpl. unfold md_files. tauto.
Qed.

(** A note with a link of its own and none pointing at it. *)
Example linking_note_is_an_orphan :
  VaultStats.get_vault_stats (fun root => root)
    (VaultStats.DiskTree
       [("/vault", [{| disk_name := "A.md"; disk_text := Some "see [[B]]";
                       disk_post := Some ([], ""); disk_mtime := Some "2024" |};
                    {| disk_name := "B.md"; disk_text := Some "";
                       disk_post := Some ([], ""); disk_mtime := Some "2025" |}])])
  = Response
      {| VaultStats.resp_total_notes := 2;
         VaultStats.resp_total_words := 2;
         VaultStats.resp_total_links := 1;
         VaultStats.resp_total_tags := [];
         VaultStats.resp_folders := [("/vault", 2)];
         VaultStats.resp_recent_notes :=
           [{| VaultStats.title := "B"; VaultStats.path := "/vault/B.md";
               VaultStats.modified := "2025" |};
            {| VaultStats.title := "A"; VaultStats.path := "/vault/A.md";
               VaultStats.modified := "2024" |}];
         VaultStats.resp_orphan_notes := ["A"] |}.
Proof. reflexivity. Qed.

(** X15.  [recent_notes] holds at most 10 entries, the first of the list of
    all fully processed files sorted by modification time, latest first:
    one entry per [.md] file that was read, parsed and dated, and no entry
    that is cut off is later than one that is kept. *)
Theorem recent_notes_are_the_latest
    (relative_folder : string -> string) (dw : disk_walk) :
  exists resp dropped,
    VaultStats.get_vault_stats relative_folder (VaultStats.DiskTree dw)
    = Response resp
    /\ Permutation (VaultStats.resp_recent_notes resp ++ dropped)
                   (flat_map recent_of (md_files dw))
    /\ List.length (VaultStats.resp_recent_notes resp)
       = Nat.min 10 (List.length (flat_map recent_of (md_files dw)))
    /\ StronglySorted no_older (VaultStats.resp_recent_notes resp)
    /\ (forall a b, In a (VaultStats.resp_recent_notes resp) ->
                    In b dropped -> no_older a b).
Proof.
  set (t := VaultStats.scan relative_folder dw).
  exists (VaultStats.finish t),
         (skipn 10 (VaultStats.sort_recent (VaultStats.recent_notes t))).
  split; [reflexivity|].
  unfold VaultStats.finish. cbn [VaultStats.resp_recent_notes].
  assert (Hall : VaultStats.recent_notes t
                 = flat_map recent_of (md_files dw)).
  { unfold t. rewrite scan_files_under.
    destruct (counted_totals relative_folder (files_under dw)
                VaultStats.empty_tally) as [_ [_ [_ H4]]].
    exact H4. }
  pose proof (sort_recent_sorted (VaultStats.recent_notes t)) as Hs.
  rewrite <- (firstn_skipn 10 (VaultStats.sort_recent
                                 (VaultStats.recent_notes t))) in Hs.
  destruct (sorted_prefix _ _ _ Hs) as [Hfront Hcut].
  split; [|split; [|split]].
  - rewrite firstn_skipn, <- Hall. apply sort_recent_perm.
  - rewrite length_firstn, <- Hall.
    now rewrite (Permutation_length (sort_recent_perm _)).
  - exact Hfront.
  - exact Hcut.
Qed.

(** ** [get_vault_stats] and [generate_graph] on the same vault *)

Lemma note_count_set (k : string) (v : node_record) (d : dict node_record) :
  count_nodes is_note (dict_set k v d)
  <= count_nodes is_note d + (if is_note v then 1 else 0).
Proof.
  unfold count_nodes, dict_values.
  induction d as [|[k' v'] d IH]; simpl.
  - destruct (is_note v); simpl; lia.
  - destruct (String.eqb k k'); simpl.
    + destruct (is_note v), (is_note v'); simpl; lia.
    + destruct (is_note v'); simpl; lia.
Qed.

Lemma note_count_add_tags (name : string) (ts : list string) (g : graph) :
  count_nodes is_note (nodes (fold_left (add_tag name) ts g))
  <= count_nodes is_note (nodes g).
Proof.
  revert g. induction ts as [|t ts IH]; intros g; simpl; [lia|].
  etransitivity; [apply IH|]. rewrite add_tag_nodes.
  destruct (dict_mem t (nodes g)); [lia|].
  pose proof (note_count_set t (TagNode t ("#" ++ t) 1) (nodes g)) as H.
  cbn [is_note] in H. lia.
Qed.

Lemma note_count_add_file (with_tags : bool) (root : string) (g : graph)
    (f : vault_file) :
  count_nodes is_note (nodes (add_file with_tags root g f))
  <= count_nodes is_note (nodes g) + List.length (scanned_in [f]).
Proof.
  unfold add_file, scanned_in. simpl.
  destruct (PyStr.endswith (file_name f) ".md"); [|simpl; lia].
  destruct (loaded f) as [src|]; [|simpl; lia].
  simpl.
  pose proof (note_count_set (stem (file_name f))
                (NoteNode (stem (file_name f)) (stem (file_name f))
                          (path_join root (file_name f)) (meta_tags src)
                          (String.length (content src)))
                (nodes g)) as H.
  cbn [is_note] in H. cbn [List.length].
  destruct with_tags; [|cbn [nodes]; lia].
  etransitivity; [apply note_count_add_tags|]. cbn [nodes]. lia.
Qed.

Lemma note_count_build (with_tags : bool) (w : walk) :
  count_nodes is_note (nodes (build_graph with_tags w))
  <= List.length (scanned_files w).
Proof.
  assert (Hfiles : forall root files g,
             count_nodes is_note
               (nodes (fold_left (add_file with_tags root) files g))
             <= count_nodes is_note (nodes g)
                + List.length (scanned_in files)).
  { intros root files. induction files as [|f files IH]; intros g.
    - simpl. lia.
    - simpl fold_left. rewrite (scanned_in_cons f files), length_app.
      etransitivity; [apply IH|].
      pose proof (note_count_add_file with_tags root g f). lia. }
  assert (Hdirs : forall dirs g,
             count_nodes is_note (nodes (fold_left (add_dir with_tags) dirs g))
             <= count_nodes is_note (nodes g)
                + List.length (scanned_files dirs)).
  { induction dirs as [|d dirs IH]; intros g.
    - simpl. lia.
    - simpl fold_left. unfold scanned_files. simpl. rewrite length_app.
      etransitivity; [apply IH|]. unfold add_dir, scanned_files.
      destruct (is_excluded_path (fst d)); [simpl; lia|].
      pose proof (Hfiles (fst d) (snd d) g). lia. }
  apply (Hdirs w empty_graph).
Qed.

(** The notes that the graph builder scans, file by file of the walk on
    disk. *)
Lemma scanned_as_walk (dw : disk_walk) :
  scanned_files (as_walk dw)
  = flat_map (fun p => scanned_in [as_vault_file (snd p)]) (files_under dw).
Proof.
  assert (Hfiles : forall (root : string) (files : list disk_file),
             scanned_in (map as_vault_file files)
             = flat_map (fun p : string * disk_file =>
                           scanned_in [as_vault_file (snd p)])
                        (map (pair root) files)).
  { intros root files. induction files as [|f files IH]; [reflexivity|].
    simpl map. rewrite scanned_in_cons, IH. reflexivity. }
  unfold scanned_files, as_walk, files_under.
  induction dw as [|d dw IH]; [reflexivity|].
  simpl. rewrite flat_map_app, IH. f_equal.
  destruct (is_excluded_path (fst d)); [reflexivity|]. apply Hfiles.
Qed.

Lemma scanned_one_file (p : string * disk_file) :
  scanned_in [as_vault_file (snd p)]
  = if is_md p then
      match disk_text (snd p), disk_post (snd p) with
      | Some text, Some (tag_list, changed) =>
          [(disk_name (snd p),
            {| content := text; meta_tags := tag_list;
               meta_modified := changed |})]
      | _, _ => []
      end
    else [].
Proof.
  unfold scanned_in, is_md, as_vault_file. simpl.
  destruct (PyStr.endswith (disk_name (snd p)) ".md"); [|reflexivity].
  destruct (disk_text (snd p)) as [text|]; [|reflexivity].
  destruct (disk_post (snd p)) as [[tag_list changed]|]; reflexivity.
Qed.

Lemma link_edges_length (name text : string) :
  List.length (link_edges name text) = List.length (findall_links text).
Proof. unfold link_edges. apply length_map. Qed.

Lemma list_sum_step (a : nat) (l : list nat) :
  list_sum (a :: l) = a + list_sum l.
Proof. reflexivity. Qed.

(** X16.  On the same vault the statistics bound the graph: the graph has
    no more note nodes than [total_notes] and no more [link] edges than
    [total_links].  The statistics count a file that cannot be read as a
    note and the links of a file whose metadata cannot be parsed; the graph
    skips both.  When every [.md] file that can be read can also be
    parsed, the two numbers of links agree. *)
Theorem stats_bound_the_graph
    (relative_folder : string -> string) (with_tags : bool)
    (dw : disk_walk) :
  exists resp,
    VaultStats.get_vault_stats relative_folder (VaultStats.DiskTree dw)
    = Response resp
    /\ count_nodes is_note (nodes (build_graph with_tags (as_walk dw)))
       <= VaultStats.resp_total_notes resp
    /\ List.length (filter is_link
                           (edges (build_graph with_tags (as_walk dw))))
       <= VaultStats.resp_total_links resp
    /\ ((forall p, In p (md_files dw) ->
                   disk_text (snd p) <> None -> disk_post (snd p) <> None) ->
        List.length (filter is_link
                            (edges (build_graph with_tags (as_walk dw))))
        = VaultStats.resp_total_links resp).
Proof.
  eexists. split; [reflexivity|].
  destruct (stats_totals relative_folder dw) as [Hnotes [_ Hlinks]].
  unfold VaultStats.finish.
  cbn [VaultStats.resp_total_notes VaultStats.resp_total_links].
  rewrite Hnotes, Hlinks.
  assert (Hedges : filter is_link (edges (build_graph with_tags (as_walk dw)))
                   = flat_map
                       (fun p => link_edges (stem (fst p)) (content (snd p)))
                       (scanned_files (as_walk dw))).
  { unfold build_graph. now rewrite add_dirs_links. }
  rewrite Hedges. rewrite scanned_as_walk. unfold md_files.
  split; [|split].
  - etransitivity; [apply note_count_build|]. rewrite scanned_as_walk.
    induction (files_under dw) as [|p l IH]; [simpl; lia|].
    cbn [flat_map filter]. rewrite length_app, scanned_one_file.
    destruct (is_md p); cbn [List.length]; [|lia].
    destruct (disk_text (snd p)); [|cbn [List.length]; lia].
    destruct (disk_post (snd p)) as [[? ?]|]; cbn [List.length]; lia.
  - induction (files_under dw) as [|p l IH]; [simpl; lia|].
    cbn [flat_map filter]. rewrite flat_map_app, length_app, scanned_one_file.
    destruct (is_md p); cbn [flat_map List.length map]; [|lia].
    rewrite list_sum_step. unfold links_read at 1.
    destruct (disk_text (snd p)) as [text|];
      [|cbn [flat_map List.length]; lia].
    destruct (disk_post (snd p)) as [[? ?]|];
      cbn [flat_map List.length].
    + rewrite app_nil_r, link_edges_length. cbn [content snd]. lia.
    + lia.
  - induction (files_under dw) as [|p l IH]; intros Hparse; [reflexivity|].
    cbn [flat_map filter]. rewrite flat_map_app, length_app, scanned_one_file.
    destruct (is_md p) eqn:Hmd; cbn [flat_map List.length map].
    2: { apply IH. intros q Hq. apply Hparse. cbn [filter].
         now rewrite Hmd. }
    assert (Hrest : forall q, In q (filter is_md l) ->
                      disk_text (snd q) <> None -> disk_post (snd q) <> None).
    { intros q Hq. apply Hparse. cbn [filter]. rewrite Hmd. now right. }
    rewrite list_sum_step, (IH Hrest). f_equal. unfold links_read.
    assert (Hp := Hparse p). cbn [filter] in Hp. rewrite Hmd in Hp.
    specialize (Hp (or_introl eq_refl)).
    destruct (disk_text (snd p)) as [text|]; [|reflexivity].
    destruct (disk_post (snd p)) as [[? ?]|]; cbn [flat_map List.length].
    + now rewrite app_nil_r, link_edges_length.
    + exfalso. now apply Hp.
Qed.

(** ** The scoped traversal: deep requests *)

Lemma filter_shorter {A : Type} (p q : A -> bool) (l : list A) :
  (forall x, p x = true -> q x = true) ->
  List.length (filter p l) <= List.length (filter q l).
Proof.
  intros Hpq. induction l as [|x l IH]; simpl; [lia|].
  destruct (p x) eqn:Hp.
  - rewrite (Hpq x Hp). simpl. lia.
  - destruct (q x); simpl; lia.
Qed.

Lemma filter_strictly_shorter {A : Type} (p q : A -> bool) (l : list A) (a : A) :
  (forall x, p x = true -> q x = true) ->
  In a l -> p a = false -> q a = true ->
  List.length (filter p l) < List.length (filter q l).
Proof.
  intros Hpq Hin Hp Hq. induction l as [|x l IH]; [destruct Hin|].
  simpl. destruct Hin as [->|Hin].
  - rewrite Hp, Hq. simpl.
    pose proof (filter_shorter p q l Hpq). lia.
  - specialize (IH Hin). destruct (p x) eqn:Hpx.
    + rewrite (Hpq x Hpx). simpl. lia.
    + destruct (q x); simpl; lia.
Qed.

Section Saturation.

Variable all_nodes : dict node_record.
Variable all_edges : list edge.

(** The number of nodes of the graph that the selection does not hold. *)
Definition unkept (st : selection) : nat :=
  List.length (filter (fun k => negb (dict_mem k (filtered_nodes st)))
                      (dict_keys all_nodes)).

Lemma unkept_shrinks (st st' : selection) :
  (forall k, dict_mem k (filtered_nodes st) = true ->
             dict_mem k (filtered_nodes st') = true) ->
  unkept st' <= unkept st.
Proof.
  intros Hgrow. apply filter_shorter. intros k Hk.
  apply negb_true_iff in Hk. apply negb_true_iff.
  destruct (dict_mem k (filtered_nodes st)) eqn:E; [|reflexivity].
  rewrite (Hgrow k E) in Hk. discriminate.
Qed.

Lemma unkept_keep_node (n : string) (record : node_record) (st : selection) :
  dict_get n all_nodes = Some record ->
  dict_mem n (filtered_nodes st) = false ->
  unkept (keep_node n record st) < unkept st.
Proof.
  intros Hget Hfresh. apply filter_strictly_shorter with n.
  - intros k Hk. apply negb_true_iff in Hk. apply negb_true_iff.
    simpl in Hk. rewrite dict_mem_set in Hk.
    now apply orb_false_iff in Hk.
  - apply dict_mem_keys. unfold dict_mem. now rewrite Hget.
  - simpl. rewrite dict_mem_set, String.eqb_refl. reflexivity.
  - now rewrite Hfresh.
Qed.

Lemma unkept_none_left (n : string) (st : selection) :
  unkept st = 0 ->
  dict_mem n (filtered_nodes st) = false ->
  dict_get n all_nodes = None.
Proof.
  intros Hzero Hfresh. destruct (dict_get n all_nodes) as [record|] eqn:Hget;
    [|reflexivity].
  exfalso. pose proof (unkept_keep_node n record st Hget Hfresh). lia.
Qed.

Lemma traverse_levels_step (below : nat) (n : string) (st : selection) :
  traverse_levels all_nodes all_edges (S below) n st
  = match dict_get n all_nodes with
    | None => st
    | Some record =>
        fold_left (visit_edge (traverse_levels all_nodes all_edges below) n)
                  all_edges (keep_node n record st)
    end.
Proof. reflexivity. Qed.

(** A call with as many levels as nodes are left to take does what a call
    with one level more does. *)
Lemma one_more_level_is_idle (levels : nat) :
  forall n st,
    dict_mem n (filtered_nodes st) = false ->
    unkept st <= levels ->
    traverse_levels all_nodes all_edges levels n st
    = traverse_levels all_nodes all_edges (S levels) n st.
Proof.
  induction levels as [|below IH]; intros n st Hfresh Hleft.
  - rewrite traverse_levels_step.
    rewrite (unkept_none_left n st) by (auto; lia). reflexivity.
  - rewrite (traverse_levels_step (S below)), (traverse_levels_step below).
    destruct (dict_get n all_nodes) as [record|] eqn:Hget; [|reflexivity].
    assert (Hst1 : unkept (keep_node n record st) <= below)
      by (pose proof (unkept_keep_node n record st Hget Hfresh); lia).
    assert (Hloop : forall es cur,
               unkept cur <= below ->
               fold_left (visit_edge (traverse_levels all_nodes all_edges
                                        below) n) es cur
               = fold_left (visit_edge (traverse_levels all_nodes all_edges
                                          (S below)) n) es cur).
    { induction es as [|x es IHes]; intros cur Hcur; [reflexivity|].
      cbn [fold_left].
      assert (Hsame :
                visit_edge (traverse_levels all_nodes all_edges below) n cur x
                = visit_edge (traverse_levels all_nodes all_edges (S below))
                             n cur x).
      { unfold visit_edge.
        destruct (String.eqb (source x) n
                  && negb (dict_mem (target x) (filtered_nodes cur))) eqn:E1.
        - apply andb_true_iff in E1. destruct E1 as [_ F].
          apply negb_true_iff in F. now apply IH.
        - destruct (String.eqb (target x) n
                    && negb (dict_mem (source x) (filtered_nodes cur)))
            eqn:E2; [|reflexivity].
          apply andb_true_iff in E2. destruct E2 as [_ F].
          apply negb_true_iff in F. now apply IH. }
      rewrite <- Hsame. apply IHes.
      etransitivity; [|exact Hcur]. apply unkept_shrinks.
      intros k Hk. now apply visit_edge_grows. }
    now apply Hloop.
Qed.

Lemma unkept_bound (st : selection) :
  unkept st <= List.length all_nodes.
Proof.
  unfold unkept, dict_keys. rewrite <- (length_map fst all_nodes).
  apply List.filter_length_le.
Qed.

Lemma traverse_levels_saturates (levels : nat) (n : string) :
  List.length all_nodes <= levels ->
  traverse_levels all_nodes all_edges levels n empty_selection
  = traverse_levels all_nodes all_edges (List.length all_nodes) n
                    empty_selection.
Proof.
  intros Hle. induction Hle as [|m Hm IH]; [reflexivity|].
  rewrite <- IH. symmetry. apply one_more_level_is_idle; [reflexivity|].
  pose proof (unkept_bound empty_selection). lia.
Qed.

End Saturation.

(** X17.  The traversal saturates: a depth at or above the number of nodes
    of the full graph gives the answer of the depth that equals that
    number, so raising the depth further changes nothing. *)
Theorem deep_requests_agree (request : GraphRequest) (w : walk) :
  (Z.of_nat (List.length (nodes (build_graph (include_tags request) w)))
   <= depth request)%Z ->
  generate_graph request (VaultTree w)
  = generate_graph
      {| depth := Z.of_nat
                    (List.length (nodes (build_graph (include_tags request) w)));
         node := node request;
         include_tags := include_tags request;
         include_attachments := include_attachments request |}
      (VaultTree w).
Proof.
  intros Hdeep. unfold generate_graph, filter_graph, scoped. simpl.
  destruct (node request) as [r|]; [|reflexivity].
  destruct (negb (String.eqb r "")
            && dict_mem r (nodes (build_graph (include_tags request) w)));
    [|reflexivity].
  unfold traverse. rewrite Nat2Z.id.
  rewrite (traverse_levels_saturates _ _ (Z.to_nat (depth request))) by lia.
  reflexivity.
Qed.

Lemma deep_requests_agree_witness :
  generate_graph (graph_request 9 (Some "R")) (VaultTree vault_detour)
  = generate_graph (graph_request 5 (Some "R")) (VaultTree vault_detour).
Proof.
  apply (deep_requests_agree (graph_request 9 (Some "R")) vault_detour).
  vm_compute. discriminate.
Defined.

(** ** File names and identifiers *)

Lemma rfind_dot_md (name : string) :
  rfind_dot (name ++ ".md") = Some (String.length name).
Proof.
  induction name as [|c name IH]; [reflexivity|].
  simpl. now rewrite IH.
Qed.

Lemma take_append (a b : string) :
  PyStr.take (String.length a) (a ++ b) = a.
Proof.
  unfold PyStr.take. induction a as [|c a IH]; simpl.
  - now destruct b.
  - now rewrite IH.
Qed.

Lemma substring_after (a b : string) :
  substring (String.length a) (String.length b) (a ++ b) = b.
Proof.
  induction a as [|c a IH]; simpl; [|exact IH].
  induction b as [|c b IHb]; simpl; [reflexivity | now rewrite IHb].
Qed.

Lemma stem_md (name : string) :
  name <> "" -> stem (name ++ ".md") = name.
Proof.
  intros Hname. unfold stem. rewrite rfind_dot_md, append_length.
  destruct name as [|c name]; [contradiction|].
  replace ((0 <? String.length (String c name))
           && (String.length (String c name)
               <? String.length (String c name) + String.length ".md" - 1))
    with true.
  - apply take_append.
  - symmetry. apply andb_true_iff. split; apply Nat.ltb_lt; simpl; lia.
Qed.

Lemma endswith_md (name : string) :
  PyStr.endswith (name ++ ".md") ".md" = true.
Proof.
  unfold PyStr.endswith. rewrite append_length. apply andb_true_iff. split.
  - apply Nat.leb_le. simpl. lia.
  - replace (String.length name + String.length ".md" - String.length ".md")
      with (String.length name) by lia.
    rewrite substring_after. apply String.eqb_refl.
Qed.

(** X18.  A note file named after a title is found under that title: for
    every non-empty title, the file [title.md] ends in [.md] and has the
    title as its stem, dots in the title included, and when it is read and
    parsed in a directory outside the excluded vault the graph holds a note
    node under the title. *)
Theorem titled_file_gives_titled_node
    (with_tags : bool) (w : walk) (root : string) (files : list vault_file)
    (f : vault_file) (src : note_source) (title : string) :
  title <> "" ->
  file_name f = (title ++ ".md")%string ->
  loaded f = Some src ->
  In (root, files) w ->
  In f files ->
  is_excluded_path root = false ->
  PyStr.endswith (file_name f) ".md" = true
  /\ stem (file_name f) = title
  /\ exists v,
       dict_get title (nodes (build_graph with_tags w)) = Some v
       /\ is_note v = true /\ node_id v = title.
Proof.
  intros Htitle Hname Hl Hd Hf Hex.
  assert (Hmd : PyStr.endswith (file_name f) ".md" = true)
    by (rewrite Hname; apply endswith_md).
  assert (Hstem : stem (file_name f) = title)
    by (rewrite Hname; now apply stem_md).
  split; [exact Hmd|]. split; [exact Hstem|].
  assert (Hscanned : In (file_name f, src) (scanned_files w)).
  { unfold scanned_files. apply in_flat_map. exists (root, files).
    split; [exact Hd|]. simpl. rewrite Hex. unfold scanned_in.
    apply in_flat_map. exists f. split; [exact Hf|].
    rewrite Hmd, Hl. now left. }
  pose proof (add_dirs_scanned_note with_tags w empty_graph
                (file_name f) src Hscanned) as [v [Hget Hnote]].
  rewrite Hstem in Hget. exists v. split; [exact Hget|].
  split; [exact Hnote|].
  destruct (build_graph_well_keyed with_tags w) as [_ Hids].
  apply Hids. now apply dict_get_In.
Qed.

Lemma titled_file_gives_titled_node_witness :
  PyStr.endswith "v1.0 notes.md" ".md" = true
  /\ stem "v1.0 notes.md" = "v1.0 notes"
  /\ exists v,
       dict_get "v1.0 notes"
         (nodes (build_graph true
                   [("/vault", [note "v1.0 notes.md" "text" []])]))
       = Some v
       /\ is_note v = true /\ node_id v = "v1.0 notes".
Proof.
  apply (titled_file_gives_titled_node
           true [("/vault", [note "v1.0 notes.md" "text" []])]
           "/vault" [note "v1.0 notes.md" "text" []]
           (note "v1.0 notes.md" "text" [])
           {| content := "text"; meta_tags := []; meta_modified := "" |}
           "v1.0 notes").
  - discriminate.
  - reflexivity.
  - reflexivity.
  - left. reflexivity.
  - left. reflexivity.
  - reflexivity.
Defined.

(** X19.  Search and graph agree on the notes: whatever the engine and the
    mode, the title of every returned result is the identifier of a note
    node of the graph built from the same vault. *)
Theorem results_are_graph_notes
    (re : regex_engine) (request : SearchRequest) (with_tags : bool)
    (w : walk) (resp : search_response) (r : search_result) :
  search_notes re request (VaultTree w) = Response resp ->
  In r (results resp) ->
  exists v,
    dict_get (title r) (nodes (build_graph with_tags w)) = Some v
    /\ is_note v = true.
Proof.
  intros Hresp Hin. inversion Hresp as [Heq]. subst resp. simpl in Hin.
  apply slice_to_In in Hin.
  apply (Permutation_in _ (sort_by_matches_perm _)) in Hin.
  apply scan_results_found in Hin.
  destruct Hin as [root [files [f [src [Hd [Hf [Hex [_ Hfound]]]]]]]].
  destruct Hfound as [Hmd [Hl [_ [_ Hr]]]].
  assert (Hscanned : In (file_name f, src) (scanned_files w)).
  { unfold scanned_files. apply in_flat_map. exists (root, files).
    split; [exact Hd|]. simpl. rewrite Hex. unfold scanned_in.
    apply in_flat_map. exists f. split; [exact Hf|].
    rewrite Hmd, Hl. now left. }
  replace (title r) with (stem (file_name f)) by (rewrite Hr; reflexivity).
  exact (add_dirs_scanned_note with_tags w empty_graph (file_name f) src
           Hscanned).
Qed.

Lemma results_are_graph_notes_witness :
  exists v,
    dict_get "B" (nodes (build_graph true vault_abc)) = Some v
    /\ is_note v = true.
Proof.
  refine (results_are_graph_notes
            plain_engine (search_request "links" "content") true vault_abc _
            {| path := "/vault/B.md"; title := "B"; preview := "no links";
               result_tags := ["x"]; modified := ""; matches := 1 |} _ _).
  - reflexivity.
  - left. reflexivity.
Defined.

(** ** Link targets *)

Lemma split_head_drops_sep (sep : ascii) (s : string) :
  has_char sep (PyStr.split_head sep s) = false.
Proof.
  induction s as [|c s IH]; simpl; [reflexivity|].
  destruct (Ascii.eqb c sep) eqn:E; simpl; [reflexivity|].
  now rewrite E.
Qed.

Lemma split_head_without_sep (sep : ascii) (s : string) :
  has_char sep s = false -> PyStr.split_head sep s = s.
Proof.
  induction s as [|c s IH]; simpl; [reflexivity|].
  intros H. apply orb_false_iff in H. destruct H as [Hc Hs].
  rewrite Hc. now rewrite IH.
Qed.

Lemma lstrip_keeps_out (c : ascii) (s : string) :
  has_char c s = false -> has_char c (PyStr.lstrip s) = false.
Proof.
  induction s as [|x s IH]; simpl; [reflexivity|].
  intros H. destruct (PyStr.isspace x); [|exact H].
  apply IH. now apply orb_false_iff in H.
Qed.

Lemma rstrip_keeps_out (c : ascii) (s : string) :
  has_char c s = false -> has_char c (PyStr.rstrip s) = false.
Proof.
  induction s as [|x s IH]; simpl; [reflexivity|].
  intros H. apply orb_false_iff in H. destruct H as [Hx Hs].
  specialize (IH Hs). destruct (PyStr.rstrip s) as [|y t].
  - destruct (PyStr.isspace x); simpl; [reflexivity|]. now rewrite Hx.
  - simpl in *. now rewrite Hx.
Qed.

Lemma rstrip_twice (s : string) :
  PyStr.rstrip (PyStr.rstrip s) = PyStr.rstrip s.
Proof.
  induction s as [|x s IH]; simpl; [reflexivity|].
  destruct (PyStr.rstrip s) as [|y t] eqn:E.
  - destruct (PyStr.isspace x) eqn:Hx; simpl; [reflexivity|].
    now rewrite Hx.
  - simpl. simpl in IH. now rewrite IH.
Qed.

(** What [lstrip] leaves is empty or begins with a character that is not
    white space, and so does what [rstrip] makes of it. *)
Definition starts_clean (s : string) : Prop :=
  match s with
  | EmptyString => True
  | String c _ => PyStr.isspace c = false
  end.

Lemma lstrip_starts_clean (s : string) : starts_clean (PyStr.lstrip s).
Proof.
  induction s as [|x s IH]; simpl; [exact I|].
  destruct (PyStr.isspace x) eqn:Hx; [exact IH | exact Hx].
Qed.

Lemma lstrip_of_clean (s : string) :
  starts_clean s -> PyStr.lstrip s = s.
Proof. destruct s as [|x s]; simpl; [reflexivity|]. now intros ->. Qed.

Lemma rstrip_starts_clean (s : string) :
  starts_clean s -> starts_clean (PyStr.rstrip s).
Proof.
  destruct s as [|x s]; simpl; [trivial|]. intros Hx.
  destruct (PyStr.rstrip s); [rewrite Hx|]; exact Hx.
Qed.

Lemma strip_twice (s : string) : PyStr.strip (PyStr.strip s) = PyStr.strip s.
Proof.
  unfold PyStr.strip.
  rewrite (lstrip_of_clean (PyStr.rstrip (PyStr.lstrip s)))
    by (apply rstrip_starts_clean, lstrip_starts_clean).
  apply rstrip_twice.
Qed.

Lemma clean_link_no_bar (l : string) : has_char "|" (clean_link l) = false.
Proof.
  unfold clean_link, PyStr.strip.
  apply rstrip_keeps_out, lstrip_keeps_out, split_head_drops_sep.
Qed.

Lemma clean_link_twice (l : string) : clean_link (clean_link l) = clean_link l.
Proof.
  unfold clean_link at 1.
  rewrite split_head_without_sep by apply clean_link_no_bar.
  unfold clean_link. apply strip_twice.
Qed.

(** X20.  The destination of every [link] edge of the built graph is in the
    form that link cleaning gives: it holds no [|], it neither begins nor
    ends with white space, and cleaning it again changes nothing, so a link
    written with the destination of an edge leads to the same identifier. *)
Theorem link_targets_are_clean (with_tags : bool) (w : walk) :
  forall e, In e (edges (build_graph with_tags w)) -> type e = link ->
    has_char "|" (target e) = false
    /\ PyStr.strip (target e) = target e
    /\ clean_link (target e) = target e.
Proof.
  intros e Hin Htype.
  assert (Hlink : In e (filter is_link (edges (build_graph with_tags w)))).
  { apply filter_In. split; [exact Hin|]. unfold is_link. now rewrite Htype. }
  unfold build_graph in Hlink. rewrite add_dirs_links in Hlink.
  simpl in Hlink. apply in_flat_map in Hlink.
  destruct Hlink as [p [_ Hp]]. unfold link_edges in Hp.
  apply in_map_iff in Hp. destruct Hp as [l [<- _]]. simpl.
  split; [apply clean_link_no_bar|]. split; [|apply clean_link_twice].
  unfold clean_link. apply strip_twice.
Qed.

Lemma link_targets_are_clean_witness :
  has_char "|" "B" = false
  /\ PyStr.strip "B" = "B"
  /\ clean_link "B" = "B".
Proof.
  apply (link_targets_are_clean true vault_spaced_link
           {| source := "A"; target := "B"; type := link |}).
  - left. reflexivity.
  - reflexivity.
Defined.

(** A file that is read but whose metadata does not parse: the statistics
    count its words and links, the graph skips it. *)
Example unparsed_file_counts_in_stats_only :
  let dw := [("/vault", [{| disk_name := "broken.md";
                            disk_text := Some "see [[B]]";
                            disk_post := None;
                            disk_mtime := Some "2024" |}])] in
  VaultStats.get_vault_stats (fun root => root) (VaultStats.DiskTree dw)
  = Response
      {| VaultStats.resp_total_notes := 1;
         VaultStats.resp_total_words := 2;
         VaultStats.resp_total_links := 1;
         VaultStats.resp_total_tags := [];
         VaultStats.resp_folders := [("/vault", 1)];
         VaultStats.resp_recent_notes := [];
         VaultStats.resp_orphan_notes := ["broken"] |}
  /\ build_graph true (as_walk dw) = empty_graph.
Proof. split; reflexivity. Qed.
